(** * vkquick: text-argument cutters and the command dispatcher

    A shallow embedding of the argument cutters ([Bool], [List],
    [Integer], [SimplifiedTextArgument]) and of
    [Bot.pass_event_trough_commands], with the properties the
    specification states about them.

    Python values are modelled as follows.
    - [str] is a sequence of Unicode code points: [list N].
    - The dynamically typed results of [cut_part] live in [value]; the
      sentinel [UnmatchedArgument] is one of its constructors, as in the
      source, where it is an ordinary object compared with [is].
    - A compiled [re.Pattern] is an abstract syntax tree together with its
      flags; [re_match] is a backtracking matcher with Python's
      leftmost-first alternation and greedy quantifiers. *)

From Stdlib Require Import ZArith NArith String Ascii Lia.
From stdpp Require Import base list numbers gmap strings.

Set Warnings "-register-all".

Local Open Scope N_scope.

(** ** Python [str] *)

Abbreviation str := (list N).

(** The source file is UTF-8; its literals are decoded to code points. *)
Fixpoint utf8_decode (bs : list N) : str :=
  match bs with
  | [] => []
  | b0 :: t0 =>
    if b0 <? 128 then b0 :: utf8_decode t0
    else match t0 with
    | [] => []
    | b1 :: t1 =>
      if b0 <? 224 then (b0 mod 32 * 64 + b1 mod 64) :: utf8_decode t1
      else match t1 with
      | [] => []
      | b2 :: t2 =>
        if b0 <? 240
        then (b0 mod 16 * 4096 + b1 mod 64 * 64 + b2 mod 64) :: utf8_decode t2
        else match t2 with
        | [] => []
        | b3 :: t3 =>
          (b0 mod 8 * 262144 + b1 mod 64 * 4096 + b2 mod 64 * 64 + b3 mod 64)
            :: utf8_decode t3
        end
      end
    end
  end.

Definition u (s : string) : str :=
  utf8_decode (map N_of_ascii (list_ascii_of_string s)).

(** [str.isspace] on one code point: the characters [str.lstrip()] removes. *)
Definition isspace (c : N) : bool :=
  ((9 <=? c) && (c <=? 13)) || ((28 <=? c) && (c <=? 32))
  || (c =? 133) || (c =? 160) || (c =? 5760)
  || ((8192 <=? c) && (c <=? 8202))
  || (c =? 8232) || (c =? 8233) || (c =? 8239) || (c =? 8287) || (c =? 12288).

(** [s.lstrip()] *)
Fixpoint lstrip (s : str) : str :=
  match s with
  | c :: t => if isspace c then lstrip t else s
  | [] => []
  end.

(** Lower-casing used by [re.IGNORECASE].  The table covers Basic Latin
    and the Cyrillic capitals U+0400..U+042F, which is every cased letter
    that occurs in the aliases of this repository; other code points are
    compared as they are. *)
Definition lower (c : N) : N :=
  if (65 <=? c) && (c <=? 90) then c + 32
  else if (1040 <=? c) && (c <=? 1071) then c + 32
  else if (1024 <=? c) && (c <=? 1039) then c + 80
  else c.

(** ** Regular expressions ([re]) *)

Inductive regex : Type :=
| Eps                      (* the empty pattern *)
| Chr (c : N)              (* a literal character *)
| AnyChar                  (* [.] *)
| Digit                    (* [\d] *)
| OneOf (cs : list N)      (* a character class [[...]] *)
| Seq (r1 r2 : regex)
| Alt (r1 r2 : regex)      (* [r1|r2], left alternative first *)
| Opt (r : regex)          (* [r?], greedy *)
| Star (r : regex)         (* [r*], greedy *)
| Plus (r : regex).        (* [r+], greedy *)

Record flags : Type := { IGNORECASE : bool; DOTALL : bool }.

Record Pattern : Type := { pattern : regex; pflags : flags }.

Definition chr_eq (fl : flags) (c x : N) : bool :=
  if IGNORECASE fl then lower c =? lower x else c =? x.

(** [\d] on ASCII input; the other Unicode decimal digits that Python
    accepts are outside the table. *)
Definition isdigit (c : N) : bool := (48 <=? c) && (c <=? 57).

(** One character of the subject against a one-character pattern. *)
Definition one (ok : N -> bool) (s : str) : list str :=
  match s with
  | x :: t => if ok x then [t] else []
  | [] => []
  end.

(** Greedy iteration.  [step] lists the ways one iteration can end; an
    iteration that consumes nothing is not repeated.  The fuel is the
    length of the subject, which bounds the number of iterations. *)
Fixpoint star_ends (step : str -> list str) (fuel : nat) (s : str) : list str :=
  match fuel with
  | O => [s]
  | S n =>
    flat_map
      (fun s' => if (length s' <? length s)%nat then star_ends step n s' else [])
      (step s) ++ [s]
  end.

(** [ends fl r s]: every suffix of [s] that can remain after [r] has
    matched a prefix of [s], in the order in which the backtracking
    matcher tries them. *)
Fixpoint ends (fl : flags) (r : regex) (s : str) : list str :=
  match r with
  | Eps => [s]
  | Chr c => one (chr_eq fl c) s
  | AnyChar => one (fun x => DOTALL fl || negb (x =? 10)) s
  | Digit => one isdigit s
  | OneOf cs => one (fun x => existsb (fun c => chr_eq fl c x) cs) s
  | Seq r1 r2 => flat_map (ends fl r2) (ends fl r1 s)
  | Alt r1 r2 => ends fl r1 s ++ ends fl r2 s
  | Opt r1 => ends fl r1 s ++ [s]
  | Star r1 => star_ends (ends fl r1) (length s) s
  | Plus r1 =>
    flat_map (fun s' => star_ends (ends fl r1) (length s') s') (ends fl r1 s)
  end.

(** A match object: the subject and the offset where the match ends
    (every match here starts at offset 0). *)
Record Match : Type := { m_string : str; m_end : nat }.

(** [m.group(0)] *)
Definition group0 (m : Match) : str := take (m_end m) (m_string m).

(** [regex.match(s)]: the first way the pattern matches at the start. *)
Definition re_match (p : Pattern) (s : str) : option Match :=
  match ends (pflags p) (pattern p) s with
  | rest :: _ => Some {| m_string := s; m_end := (length s - length rest)%nat |}
  | [] => None
  end.

(** ** Values returned by cutters *)

Inductive value : Type :=
| UnmatchedArgument
| VBool (b : bool)
| VStr (s : str)
| VMatch (m : Match)
| VList (vs : list value).

(** [v is UnmatchedArgument] *)
Definition is_unmatched (v : value) : bool :=
  match v with UnmatchedArgument => true | _ => false end.

(** ** [TextArgument.cut_part_lite] *)

(** Modelled from the spec: the base class [TextArgument] with its helper
    [cut_part_lite] is not among the sources.  The specification's cutter
    contract is followed: the pattern is applied at the start of the
    remaining text; on a match the extracted value is returned with the
    text after the match, and otherwise [UnmatchedArgument] with the text
    as it was given. *)
Definition cut_part_lite (regex : Pattern) (arguments_string : str)
    (factory : Match -> value) : value * str :=
  match re_match regex arguments_string with
  | Some matched => (factory matched, drop (m_end matched) arguments_string)
  | None => (UnmatchedArgument, arguments_string)
  end.

(** The default extractor [lambda x: x]. *)
Definition factory_default (m : Match) : value := VMatch m.

(** ** [bool_.py] *)

Module bool_.

(** Characters with a meaning of their own in a pattern. *)
Definition is_meta (c : N) : bool :=
  existsb (N.eqb c) (u ".^$*+?{}[]\|()").

(** The aliases are pasted into the pattern text as they are.  An alias is
    read as a sequence of literal characters, where a backslash followed by
    a special character stands for that character (as in the built-in alias
    [\+]).  An alias that uses pattern syntax otherwise is not covered:
    the result is [None]. *)
Fixpoint fragment (alias : str) : option regex :=
  match alias with
  | [] => Some Eps
  | c :: rest =>
    if c =? 92 then
      match rest with
      | d :: rest' => if is_meta d then Seq (Chr d) <$> fragment rest' else None
      | [] => None
      end
    else if is_meta c then None
    else Seq (Chr c) <$> fragment rest
  end.

(** [(?:a1|a2|...|an)] *)
Fixpoint alternation (rs : list regex) : regex :=
  match rs with
  | [] => Eps
  | r :: rs' =>
    match rs' with
    | [] => r
    | _ :: _ => Alt r (alternation rs')
    end
  end.

(** [re.compile(f"(?:{'|'.join(values)})", re.IGNORECASE)] *)
Definition compile_values (values : list str) : option Pattern :=
  rs ← mapM fragment values;
  Some {| pattern := alternation rs;
          pflags := {| IGNORECASE := true; DOTALL := false |} |}.

Record Bool : Type := { true_regex : Pattern; false_regex : Pattern }.

Definition true_values : list str :=
  [ u "true"; u "1"; u "yes"; u "y"; u "да"; u "д"; u "истина"; u "\+";
    u "правда"; u "t"; u "on"; u "вкл"; u "enable" ].

Definition false_values : list str :=
  [ u "false"; u "0"; u "no"; u "n"; u "нет"; u "н"; u "ложь"; u "-";
    u "неправда"; u "f"; u "off"; u "выкл"; u "disable" ].

(** [Bool.__init__]: the extensions are appended to the built-in aliases,
    in the order given. *)
Definition __init__ (true_extension false_extension : list str) : option Bool :=
  t ← compile_values (true_values ++ true_extension);
  f ← compile_values (false_values ++ false_extension);
  Some {| true_regex := t; false_regex := f |}.

Section cut.
(** [self.cut_part_lite], inherited from the base class. *)
Variable cut_part_lite : Pattern -> str -> (Match -> value) -> value * str.

Definition cut_part (self : Bool) (arguments_string : str) : value * str :=
  let '(value, parsed_string) :=
    cut_part_lite (true_regex self) arguments_string factory_default in
  if negb (is_unmatched value) then (VBool true, parsed_string)
  else
    let '(value, parsed_string) :=
      cut_part_lite (false_regex self) arguments_string factory_default in
    if negb (is_unmatched value) then (VBool false, parsed_string)
    else (UnmatchedArgument, parsed_string).
End cut.

End bool_.

(** ** The cutter interface *)

Module text_argument.

(** What the combinators use of a [TextArgument]: its [cut_part]. *)
Record TextArgument : Type := { cut_part : str -> value * str }.

End text_argument.

(** A [Bool] instance seen through that interface. *)
Definition Bool_argument (b : bool_.Bool) : text_argument.TextArgument :=
  {| text_argument.cut_part := bool_.cut_part cut_part_lite b |}.

(** ** [list_.py] *)

Module list_.

(** [max_length] is an integer or the default [...]. *)
Inductive length_bound : Type :=
| Ellipsis
| Int (n : Z).

Record List : Type := {
  element : text_argument.TextArgument;
  min_length : Z;
  max_length : length_bound
}.

(** The loop condition
    [self.max_length is Ellipsis or len(values) < self.max_length]. *)
Definition under_max (self : List) (values : list value) : bool :=
  match max_length self with
  | Ellipsis => true
  | Int n => (Z.of_nat (length values) <? n)%Z
  end.

(** The [while] loop of [List.cut_part], one iteration per unit of fuel.
    [None] means that the fuel ran out before the loop ended; with an
    unbounded [max_length] and an element that accepts forever the Python
    loop does not end either. *)
Fixpoint loop (self : List) (fuel : nat) (values : list value)
    (remaining_string : str) : option (value * str) :=
  match fuel with
  | O => None
  | S fuel' =>
    if under_max self values then
      let remaining_string := lstrip remaining_string in
      let '(chunk, remaining_string) :=
        text_argument.cut_part (element self) remaining_string in
      if is_unmatched chunk then
        if (Z.of_nat (length values) >? min_length self)%Z
        then Some (VList values, remaining_string)       (* break *)
        else Some (chunk, remaining_string)
      else loop self fuel' (values ++ [chunk]) remaining_string
    else Some (VList values, remaining_string)
  end.

Definition cut_part (self : List) (fuel : nat) (arguments_string : str)
    : option (value * str) :=
  loop self fuel [] arguments_string.

(** [vs] are the values of the well-formed elements at the front of [s],
    each after optional white space, and [s'] is the text after them. *)
Inductive accepts (el : text_argument.TextArgument) : str -> list value -> str -> Prop :=
| accepts_nil s : accepts el s [] s
| accepts_cons s v s1 vs s2 :
    text_argument.cut_part el (lstrip s) = (v, s1) ->
    is_unmatched v = false ->
    accepts el s1 vs s2 ->
    accepts el s (v :: vs) s2.

End list_.

(** ** [float_.py] *)

(** The result of a cutter of the [ext.chatbot] package. *)
Record CutterParsingResponse : Type := {
  parsed_part : str;
  new_arguments_string : str
}.

Inductive CutterResult : Type :=
| Matched (r : CutterParsingResponse)
| Unmatched.

(** Modelled from the spec: [cut_part_via_regex] of [text_cutters.base] is
    not among the sources.  Following the specification's cutter contract,
    the pattern is applied at the start of the text; a match gives the
    matched text and the text after it, and no match gives [Unmatched]. *)
Definition cut_part_via_regex (regex : Pattern) (arguments_string : str)
    : CutterResult :=
  match re_match regex arguments_string with
  | Some matched =>
    Matched {| parsed_part := group0 matched;
               new_arguments_string := drop (m_end matched) arguments_string |}
  | None => Unmatched
  end.

Module float_.

Definition no_flags : flags := {| IGNORECASE := false; DOTALL := false |}.

(** [re.compile(r"[+|-]?\d*(?:\.\d+)")] *)
Definition _pattern : Pattern :=
  {| pattern :=
       Seq (Opt (OneOf (u "+|-")))
           (Seq (Star Digit) (Seq (Chr 46) (Plus Digit)));
     pflags := no_flags |}.

(** [Integer.cut_part] *)
Definition cut_part (arguments_string : str) : CutterResult :=
  cut_part_via_regex _pattern arguments_string.

End float_.

(** ** [simplified_text_argument.py] *)

Module simplified_text_argument.

(** The constructor body is empty: the instance keeps nothing. *)
Record SimplifiedTextArgument : Type := Build { }.

Definition __init__ (re_pattern : Pattern) : SimplifiedTextArgument := Build.

Section cut.
Variable cut_part_lite : Pattern -> str -> (Match -> value) -> value * str.

(** [re.compile(r".+", flags=re.DOTALL)] and [lambda x: x.group(0)] *)
Definition cut_part (self : SimplifiedTextArgument) (arguments_string : str)
    : value * str :=
  cut_part_lite
    {| pattern := Plus AnyChar;
       pflags := {| IGNORECASE := false; DOTALL := true |} |}
    arguments_string
    (fun x => VStr (group0 x)).
End cut.

End simplified_text_argument.

(** ** [bot.py] *)

Module bot.

(** A raised exception: whether its class derives from [Exception] (what
    [except Exception] looks at) and its message. *)
Record exception : Type := { derives_Exception : bool; message : string }.

(** The state of an awaited future. *)
Inductive awaited (A : Type) : Type :=
| Result (a : A)
| Raises (e : exception)
| Pending.
Arguments Result {A} a.
Arguments Raises {A} e.
Arguments Pending {A}.

Section dispatch.
Variables Event SharedBox HandlingStatus : Type.

(** How a task ends: with its return value or with an exception. *)
Inductive outcome : Type :=
| Returned (status : HandlingStatus)
| Raised (e : exception).

(** [vkquick.command.Command] is not among the sources; the dispatcher
    uses only its coroutine [handle_event]. *)
Record Command : Type := { handle_event : Event -> SharedBox -> outcome }.

Record Bot : Type := {
  commands : list Command;
  shared_box : SharedBox;
  release : bool;
  debug_filter : Event -> bool
}.

(** What the dispatcher does to the outside world. *)
Inductive effect : Type :=
| print_exc (e : exception)
| debugger_render (event : Event) (handling_info : list HandlingStatus)
| signal_POST_EVENT_HANDLING (event : Event) (handling_info : list HandlingStatus).

(** ** [asyncio.gather] *)

(** The children complete one after the other in the order [order]
    (indices into [children]).  Each completion runs gather's callback:
    an exception of the child is passed to the outer future at once;
    otherwise the child's result is stored in the child, and when the
    number of finished children reaches the number of children the
    results are read from the children in the order they were given to
    [gather].  [futs] holds the results stored so far. *)
Fixpoint gather_loop (children : list outcome) (order : list nat)
    (futs : list (option HandlingStatus)) (nfinished : nat)
    : awaited (list HandlingStatus) :=
  match order with
  | [] => Pending
  | i :: order' =>
    match children !! i with
    | None => gather_loop children order' futs nfinished
    | Some (Raised e) => Raises e
    | Some (Returned status) =>
      let futs := <[i := Some status]> futs in
      let nfinished := S nfinished in
      if (nfinished =? length children)%nat then
        match mapM id futs with
        | Some results => Result results
        | None => Pending
        end
      else gather_loop children order' futs nfinished
    end
  end.

(** Without children the outer future is resolved with the empty list
    straight away. *)
Definition gather (children : list outcome) (order : list nat)
    : awaited (list HandlingStatus) :=
  match children with
  | [] => Result []
  | _ :: _ => gather_loop children order (replicate (length children) None) 0
  end.

(** ** [Bot] *)

Definition show_debug_info (self : Bot) (event : Event)
    (handling_info : list HandlingStatus) : list effect :=
  if debug_filter self event then [debugger_render event handling_info]
  else [].

Definition _call_post_event_handling_signal (self : Bot) (event : Event)
    (handling_info : list HandlingStatus) : list effect :=
  [signal_POST_EVENT_HANDLING event handling_info].

(** How a call of the coroutine ends. *)
Inductive completion : Type :=
| Returns (trace : list effect)       (* returns [None] after these effects *)
| Propagates (e : exception)          (* the exception leaves the coroutine *)
| Blocked.                            (* still waiting for [gather] *)

(** [Bot.pass_event_trough_commands].  [order] is the order in which the
    scheduler lets the tasks complete. *)
Definition pass_event_trough_commands (self : Bot) (event : Event)
    (order : list nat) : completion :=
  let tasks :=
    map (fun command => handle_event command event (shared_box self))
        (commands self) in
  match gather tasks order with
  | Raises e =>
    if derives_Exception e then Returns [print_exc e] else Propagates e
  | Result handling_info =>
    Returns
      ((if negb (release self) then show_debug_info self event handling_info
        else [])
       ++ _call_post_event_handling_signal self event handling_info)
  | Pending => Blocked
  end.

(** The statuses that an effect hands to a consumer. *)
Definition delivered (e : effect) : list HandlingStatus :=
  match e with
  | print_exc _ => []
  | debugger_render _ handling_info => handling_info
  | signal_POST_EVENT_HANDLING _ handling_info => handling_info
  end.
End dispatch.

Arguments Returned {HandlingStatus} status.
Arguments Raised {HandlingStatus} e.
Arguments handle_event {Event SharedBox HandlingStatus} _ _ _.
Arguments commands {Event SharedBox HandlingStatus} _.
Arguments shared_box {Event SharedBox HandlingStatus} _.
Arguments release {Event SharedBox HandlingStatus} _.
Arguments debug_filter {Event SharedBox HandlingStatus} _ _.
Arguments print_exc {Event HandlingStatus} e.
Arguments debugger_render {Event HandlingStatus} event handling_info.
Arguments signal_POST_EVENT_HANDLING {Event HandlingStatus} event handling_info.
Arguments gather_loop {HandlingStatus} children order futs nfinished.
Arguments gather {HandlingStatus} children order.
Arguments show_debug_info {Event SharedBox HandlingStatus} self event handling_info.
Arguments _call_post_event_handling_signal {Event SharedBox HandlingStatus} self event handling_info.
Arguments Returns {Event HandlingStatus} trace.
Arguments Propagates {Event HandlingStatus} e.
Arguments Blocked {Event HandlingStatus}.
Arguments pass_event_trough_commands {Event SharedBox HandlingStatus} self event order.
Arguments delivered {Event HandlingStatus} e.

End bot.

(** ** [keyboard.py] *)

Module keyboard.

Inductive error : Type :=
| IndexError
| ValueError (msg : string).

(** An argument of [build]: a button or [...]. *)
Inductive item (B : Type) : Type :=
| Ellipsis
| Button (button : B).
Arguments Ellipsis {B}.
Arguments Button {B} button.

Section keyboard.
(** The [scheme] of an [InitializedButton]; that class is not among the
    sources and the keyboard only stores the scheme. *)
Variable B : Type.

(** [self.scheme]: the keys ["inline"] and ["buttons"], and ["one_time"]
    when it was set. *)
Record Keyboard : Type := {
  inline : bool;
  one_time : option bool;
  buttons : list (list B)
}.

Definition __init__ (one_time inline : bool) : Keyboard :=
  {| inline := inline;
     buttons := [[]];
     one_time := if negb inline then Some one_time else None |}.

(** [lines[-1].append(x)]; an empty list has no last element. *)
Fixpoint append_to_last (lines : list (list B)) (x : B)
    : option (list (list B)) :=
  match lines with
  | [] => None
  | [line] => Some [line ++ [x]]
  | line :: lines' => cons line <$> append_to_last lines' x
  end.

Definition add (self : Keyboard) (button : B) : error + Keyboard :=
  match append_to_last (buttons self) button with
  | Some lines =>
    inr {| inline := inline self; one_time := one_time self; buttons := lines |}
  | None => inl IndexError
  end.

Definition add_line (self : Keyboard) : error + Keyboard :=
  match buttons self with
  | [] => inl (ValueError "Can't add a new line if the last line is empty")
  | _ :: _ =>
    inr {| inline := inline self; one_time := one_time self;
           buttons := buttons self ++ [[]] |}
  end.

Fixpoint build (self : Keyboard) (buttons : list (item B)) : error + Keyboard :=
  match buttons with
  | [] => inr self
  | button :: rest =>
    match
      match button with
      | Ellipsis => add_line self
      | Button b => add self b
      end
    with
    | inl e => inl e
    | inr self' => build self' rest
    end
  end.

(** The buttons among the arguments of [build], in order. *)
Definition given_buttons (items : list (item B)) : list B :=
  omap (fun i => match i with Ellipsis => None | Button b => Some b end) items.

Definition is_Ellipsis (i : item B) : bool :=
  match i with Ellipsis => true | Button _ => false end.
End keyboard.

Arguments inline {B} _.
Arguments one_time {B} _.
Arguments buttons {B} _.
Arguments __init__ {B} one_time inline.
Arguments add {B} self button.
Arguments add_line {B} self.
Arguments build {B} self buttons.
Arguments given_buttons {B} items.
Arguments is_Ellipsis {B} i.

End keyboard.

(** ** [tools/button.py] *)

Module button.

(** The exceptions the module raises, by class. *)
Inductive error : Type :=
| TypeError
| ValueError
| KeyError.

Section button.
(** A Python [dict] given as payload, with [json.dumps] on it (which may
    raise) and whether [json.loads] accepts a string. *)
Variable Dict : Type.
Variable dumps : Dict -> error + str.
Variable loads_ok : str -> bool.

(** The values that occur in the keyword arguments of the constructors. *)
Inductive val : Type :=
| NoneV
| StrV (s : str)
| IntV (z : Z)
| DictV (d : Dict)
| OtherV.

(** [self.info]: [{"action": {...}}], with ["color"] once a colour was
    chosen; [None] for [Button.line()]. *)
Record Info : Type := { action : gmap string val; color : option string }.
Record Button : Type := { info : option Info }.

(** [Button.__new__(Button, **info)] *)
Definition __new__ (kwargs : gmap string val) : Button :=
  {| info := Some {| action := kwargs; color := None |} |}.

(** The decorator [_payload_convert] around a constructor called [name]
    whose body returned [action]. *)
Definition _payload_convert (name : string) (action : gmap string val)
    : error + Button :=
  let action := <["type" := StrV (u name)]> action in
  match action !! "payload" with
  | None => inl KeyError
  | Some NoneV => inr (__new__ (delete "payload" action))
  | Some payload =>
    match
      match payload with
      | DictV d =>
        match dumps d with
        | inl e => inl e
        | inr s => inr (s, <["payload" := StrV s]> action)
        end
      | StrV s => inr (s, action)
      | _ => inl TypeError
      end
    with
    | inl e => inl e
    | inr (s, action) =>
      if loads_ok s then inr (__new__ action) else inl ValueError
    end
  end.

(** [v == "text"] *)
Definition is_text (v : val) : bool :=
  match v with
  | StrV s => bool_decide (s = u "text")
  | _ => false
  end.

(** The decorator [_is_text_button] around a method called [name]. *)
Definition _is_text_button (name : string) (self : Button) : error + Button :=
  match info self with
  | None => inl TypeError
  | Some i =>
    match action i !! "type" with
    | None => inl KeyError
    | Some t =>
      if is_text t
      then inr {| info := Some {| action := action i; color := Some name |} |}
      else inl TypeError
    end
  end.

Definition positive := _is_text_button "positive".
Definition negative := _is_text_button "negative".
Definition secondary := _is_text_button "secondary".
Definition primary := _is_text_button "primary".

Definition line : Button := {| info := None |}.

Definition text (label payload : val) : error + Button :=
  _payload_convert "text" (<["payload" := payload]> {["label" := label]}).

Definition open_link (label link payload : val) : error + Button :=
  _payload_convert "open_link"
    (<["payload" := payload]> (<["link" := link]> {["label" := label]})).

Definition location (payload : val) : error + Button :=
  _payload_convert "location" {["payload" := payload]}.

Definition vkpay (hash_ payload : val) : error + Button :=
  let data : gmap string val :=
    <["payload" := payload]> {["hash_" := hash_]} in
  match data !! "hash_" with
  | None => inl KeyError
  | Some hash_ =>
    _payload_convert "vkpay" (<["hash" := hash_]> (delete "hash_" data))
  end.

Definition open_app (label app_id owner_id hash_ payload : val)
    : error + Button :=
  let data : gmap string val :=
    <["payload" := payload]>
      (<["hash_" := hash_]>
         (<["owner_id" := owner_id]>
            (<["app_id" := app_id]> {["label" := label]}))) in
  match data !! "hash_" with
  | None => inl KeyError
  | Some hash_ =>
    _payload_convert "open_app" (<["hash" := hash_]> (delete "hash_" data))
  end.
End button.

Arguments NoneV {Dict}.
Arguments StrV {Dict} s.
Arguments IntV {Dict} z.
Arguments DictV {Dict} d.
Arguments OtherV {Dict}.
Arguments action {Dict} _.
Arguments color {Dict} _.
Arguments info {Dict} _.
Arguments line {Dict}.
Arguments _is_text_button {Dict} name self.
Arguments positive {Dict} self.
Arguments negative {Dict} self.
Arguments secondary {Dict} self.
Arguments primary {Dict} self.

End button.

(** ** [debuggers.py] *)

Module debuggers.

(** [sep.join(parts)] *)
Fixpoint join (sep : str) (parts : list str) : str :=
  match parts with
  | [] => []
  | [p] => p
  | p :: rest => p ++ sep ++ join sep rest
  end.

(** [symbol * n] *)
Fixpoint repeat_str (symbol : str) (n : nat) : str :=
  match n with
  | O => []
  | S n' => symbol ++ repeat_str symbol n'
  end.

(** The colour attributes of the debugger class that [render] uses.  In
    [ColoredDebugger] they are functions of [huepy]; in
    [UncoloredDebugger] each of them is [uncolored_text]. *)
Record Palette : Type := {
  event_handler_passed_color : str -> str;
  event_handler_not_passed_color : str -> str;
  event_handler_taken_time_color : str -> str;
  unpassed_filter_name_color : str -> str;
  passed_filter_name_color : str -> str;
  filter_decision_color : str -> str;
  passed_argument_color : str -> str;
  exception_header_reaction_name_color : str -> str;
  event_header_separator_color : str -> str;
  reactions_separator_color : str -> str;
  exception_separator_color : str -> str
}.

Definition uncolored_text (text : str) : str := text.

Definition UncoloredDebugger : Palette :=
  {| event_handler_passed_color := uncolored_text;
     event_handler_not_passed_color := uncolored_text;
     event_handler_taken_time_color := uncolored_text;
     unpassed_filter_name_color := uncolored_text;
     passed_filter_name_color := uncolored_text;
     filter_decision_color := uncolored_text;
     passed_argument_color := uncolored_text;
     exception_header_reaction_name_color := uncolored_text;
     event_header_separator_color := uncolored_text;
     reactions_separator_color := uncolored_text;
     exception_separator_color := uncolored_text |}.

Section debugger.
(** Values outside the module: the time a handler took with its rendering
    by [format(_, ".6f")], the values of the arguments with [str], the
    width of the terminal, and the class attribute
    [exception_header_template] (built with [huepy.bad] when the class is
    defined) with the reaction name filled in. *)
Variables Time Value : Type.
Variable format_6f : Time -> str.
Variable to_str : Value -> str.
Variable columns : nat.
Variable exception_header_template_format : str -> str.

(** A filter's decision and the name of the filter. *)
Record Decision : Type := { passed : bool; description : str }.

(** Modelled from the spec: [HandlingInfoScheme] is not among the
    sources; these are the attributes the debugger reads, with the
    reaction's [__name__] in place of the handler. *)
Record HandlingInfoScheme : Type := {
  reaction_name : str;
  is_correct_event_type : bool;
  filters_response : list (Decision * str);
  all_filters_passed : bool;
  passed_arguments : list (str * Value);
  taken_time : Time;
  exception_text : option str
}.

Record Debugger : Type := {
  palette : Palette;
  event_type : str;              (* [str(self.event.type)] *)
  schemes : list HandlingInfoScheme
}.

Definition build_separator (sep_symbol : str) (color : str -> str) : str :=
  color (repeat_str sep_symbol columns).

Definition build_header (self : Debugger) : str :=
  u "-> " ++ event_type self ++ u (String "010" "")
  ++ build_separator (u "=") (event_header_separator_color (palette self))
  ++ u (String "010" (String "010" "")).

Definition _generate_filters_message (self : Debugger)
    (scheme : HandlingInfoScheme) : list str :=
  map (fun decision : Decision * str =>
         let decision_description :=
           filter_decision_color (palette self) (description (fst decision)) in
         let filter_name := snd decision in
         let filter_name :=
           if passed (fst decision)
           then passed_filter_name_color (palette self) filter_name
           else unpassed_filter_name_color (palette self) filter_name in
         u "-> " ++ filter_name ++ u ": " ++ decision_description)
      (filters_response scheme).

Definition _generate_arguments_message (self : Debugger)
    (scheme : HandlingInfoScheme) : list str :=
  map (fun '(name, value) =>
         let name := passed_argument_color (palette self) name in
         u "    >> " ++ name ++ u ": " ++ to_str value ++ u (String "010" ""))
      (passed_arguments scheme).

Definition build_event_handler_header (self : Debugger)
    (scheme : HandlingInfoScheme) : str :=
  let header_color :=
    if all_filters_passed scheme
    then event_handler_passed_color (palette self)
    else event_handler_not_passed_color (palette self) in
  let reaction_name := header_color (reaction_name scheme) in
  let taken_time := format_6f (taken_time scheme) in
  let taken_time := u "(" ++ taken_time ++ u "s)" in
  let taken_time := event_handler_taken_time_color (palette self) taken_time in
  u "[" ++ reaction_name ++ u "] " ++ taken_time ++ u (String "010" "").

Definition build_event_handler_filters_decision (self : Debugger)
    (scheme : HandlingInfoScheme) : str :=
  join (u (String "010" "")) (_generate_filters_message self scheme).

Definition build_event_handler_arguments (self : Debugger)
    (scheme : HandlingInfoScheme) : str :=
  u (String "010" "") ++ join [] (_generate_arguments_message self scheme).

Definition build_event_handler_message (self : Debugger)
    (scheme : HandlingInfoScheme) : str :=
  build_event_handler_header self scheme
  ++ build_event_handler_filters_decision self scheme
  ++ build_event_handler_arguments self scheme.

(** The loop of [build_body]: a handler whose filters all passed is put
    in front ([insert(0, _)]), any other at the end. *)
Definition handling_messages (self : Debugger) : list str :=
  foldl
    (fun (handling_messages : list str) scheme =>
       if is_correct_event_type scheme then
         let handling_message := build_event_handler_message self scheme in
         if all_filters_passed scheme
         then handling_message :: handling_messages
         else handling_messages ++ [handling_message]
       else handling_messages)
    [] (schemes self).

(** The handlers that [build_body] shows: those of the right event
    type, split by whether all their filters passed. *)
Definition shown_passed (scheme : HandlingInfoScheme) : bool :=
  is_correct_event_type scheme && all_filters_passed scheme.

Definition shown_failed (scheme : HandlingInfoScheme) : bool :=
  is_correct_event_type scheme && negb (all_filters_passed scheme).

Definition build_body (self : Debugger) : str :=
  let separator :=
    build_separator (u "-") (reactions_separator_color (palette self)) in
  let separator :=
    u (String "010" "") ++ separator ++ u (String "010" "") in
  join separator (handling_messages self).

Definition build_exception_header (self : Debugger)
    (scheme : HandlingInfoScheme) : str :=
  exception_header_template_format
    (exception_header_reaction_name_color (palette self) (reaction_name scheme)).

(** [if scheme.exception_text]: neither [None] nor empty. *)
Definition truthy (text : option str) : bool :=
  match text with
  | Some (_ :: _) => true
  | _ => false
  end.

Definition build_exception (self : Debugger) : str :=
  let exceptions :=
    omap (fun scheme =>
            match exception_text scheme with
            | Some text =>
              if truthy (Some text)
              then Some (build_exception_header self scheme ++ text)
              else None
            | None => None
            end)
         (schemes self) in
  let exceptions := join (u "!") exceptions in
  match exceptions with
  | [] => exceptions
  | _ :: _ =>
    let separator :=
      build_separator (u "!") (exception_separator_color (palette self)) in
    u (String "010" "") ++ separator ++ u (String "010" (String "010" ""))
    ++ exceptions
  end.

Definition render (self : Debugger) : str :=
  build_header self ++ build_body self ++ build_exception self.
End debugger.

End debuggers.

(** ** [bot.py]: the release flag *)

Module bot_release.

(** [s.isdigit()], with the table of [isdigit]. *)
Definition str_isdigit (s : str) : bool :=
  match s with
  | [] => false
  | _ :: _ => forallb isdigit s
  end.

(** [int(s)] for a string of decimal digits. *)
Definition int (s : str) : Z :=
  foldl (fun acc c => (acc * 10 + (Z.of_N c - 48))%Z) 0%Z s.

(** [Bot.release]; the argument is [os.getenv("VKQUICK_RELEASE")], [None]
    when the variable is not set.  The last line is [bool(release)] on
    [None], on an integer or on a string. *)
Definition release (getenv : option str) : bool :=
  match getenv with
  | None => false
  | Some release =>
    if str_isdigit release then negb (int release =? 0)%Z
    else match release with [] => false | _ :: _ => true end
  end.

End bot_release.

(** ** [bot.py]: [_HandlerMarker] *)

Module handler_marker.
Section marker.
Variables Event SharedBox HandlingStatus : Type.

(** [_HandlerMarker.command]: the command is appended to the list of the
    bot and returned; the first component is the bot afterwards. *)
Definition command (self : bot.Bot Event SharedBox HandlingStatus)
    (command : bot.Command Event SharedBox HandlingStatus)
    : bot.Bot Event SharedBox HandlingStatus
      * bot.Command Event SharedBox HandlingStatus :=
  ({| bot.commands := bot.commands self ++ [command];
      bot.shared_box := bot.shared_box self;
      bot.release := bot.release self;
      bot.debug_filter := bot.debug_filter self |},
   command).

(** Marking several commands one after the other. *)
Definition mark_all (self : bot.Bot Event SharedBox HandlingStatus)
    (cs : list (bot.Command Event SharedBox HandlingStatus))
    : bot.Bot Event SharedBox HandlingStatus :=
  foldl (fun b c => fst (command b c)) self cs.
End marker.

Arguments command {Event SharedBox HandlingStatus} self command.
Arguments mark_all {Event SharedBox HandlingStatus} self cs.

End handler_marker.

(** ** [float_.py]: [Integer.cast_to_type] *)

Module float_cast.
Section cast.
(** Python's floats, the built-in [float] on strings ([None] when it
    raises [ValueError]), and the command context, which is not used. *)
Variables Float CommandContext : Type.
Variable float : str -> option Float.

Definition cast_to_type (ctx : CommandContext) (parsed_part : str)
    : option Float :=
  float parsed_part.
End cast.

Arguments cast_to_type {Float CommandContext} float ctx parsed_part.

End float_cast.

(** * Concrete cutters used in the examples *)

Definition plain_Pattern (r : regex) : Pattern :=
  {| pattern := r; pflags := float_.no_flags |}.

(** [Bool()] *)
Definition Bool_default : bool_.Bool :=
  match bool_.__init__ [] [] with
  | Some b => b
  | None => {| bool_.true_regex := plain_Pattern Eps;
               bool_.false_regex := plain_Pattern Eps |}
  end.

(** [Bool(true_extension=["yeah"], false_extension=["turn off"])] *)
Definition Bool_extended : bool_.Bool :=
  match bool_.__init__ [u "yeah"] [u "turn off"] with
  | Some b => b
  | None => Bool_default
  end.

(** [Bool(true_extension=["ok"], false_extension=["ok"])] *)
Definition Bool_overlapping : bool_.Bool :=
  match bool_.__init__ [u "ok"] [u "ok"] with
  | Some b => b
  | None => Bool_default
  end.

(** [List(element=Bool(), min_length=m, max_length=n)] *)
Definition List_of_Bool (m : Z) (n : list_.length_bound) : list_.List :=
  {| list_.element := Bool_argument Bool_default;
     list_.min_length := m;
     list_.max_length := n |}.

(** Commands over trivial events: [hi] returns the status [7], [bye] the
    status [9], and [broken] raises a [RuntimeError]. *)
Definition RuntimeError_boom : bot.exception :=
  {| bot.derives_Exception := true; bot.message := "boom" |}.

Definition command_hi : bot.Command unit unit nat :=
  {| bot.handle_event := fun _ _ => bot.Returned 7%nat |}.

Definition command_broken : bot.Command unit unit nat :=
  {| bot.handle_event := fun _ _ => bot.Raised RuntimeError_boom |}.

Definition command_bye : bot.Command unit unit nat :=
  {| bot.handle_event := fun _ _ => bot.Returned 9%nat |}.

Definition bot_with (cs : list (bot.Command unit unit nat)) : bot.Bot unit unit nat :=
  {| bot.commands := cs; bot.shared_box := tt; bot.release := false;
     bot.debug_filter := fun _ => true |}.

(** A command that is cancelled: [asyncio.CancelledError] does not derive
    from [Exception]. *)
Definition CancelledError_stop : bot.exception :=
  {| bot.derives_Exception := false; bot.message := "" |}.

Definition command_cancelled : bot.Command unit unit nat :=
  {| bot.handle_event := fun _ _ => bot.Raised CancelledError_stop |}.

(** A cutter that accepts the empty prefix of any text. *)
Definition Empty_argument : text_argument.TextArgument :=
  {| text_argument.cut_part := fun s => (VStr [], s) |}.

(** The text does not begin with a digit. *)
Definition no_leading_digit (rest : str) : Prop :=
  match rest with
  | [] => True
  | c :: _ => isdigit c = false
  end.

(** The text an alias stands for: the alias without the backslashes that
    escape special characters. *)
Fixpoint alias_literal (alias : str) : str :=
  match alias with
  | [] => []
  | c :: rest =>
    if c =? 92 then
      match rest with
      | d :: rest' => d :: alias_literal rest'
      | [] => []
      end
    else c :: alias_literal rest
  end.

(** [p] is a prefix of [s] up to letter case. *)
Fixpoint starts_with_ci (p s : str) : bool :=
  match p, s with
  | [], _ => true
  | c :: p', x :: s' => (lower c =? lower x) && starts_with_ci p' s'
  | _ :: _, [] => false
  end.

(** The first of the aliases, in list order, that is a prefix of [s] up to
    letter case. *)
Definition first_alias (values : list str) (s : str) : option str :=
  List.find (fun alias => starts_with_ci (alias_literal alias) s) values.

(** The flags of the patterns of [Bool]. *)
Definition ignorecase_flags : flags := {| IGNORECASE := true; DOTALL := false |}.

(** The characters on which the table [lower] is Python's lower-casing
    and on which matching under [re.IGNORECASE] amounts to comparing
    lower-cased characters: Basic Latin and the Cyrillic letters
    U+0400..U+045F. *)
Definition in_case_table (c : N) : bool :=
  (c <? 128) || ((1024 <=? c) && (c <=? 1119)).

(** The text is made of characters of the case table. *)
Definition case_table_text (s : str) : Prop :=
  Forall (fun c => in_case_table c = true) s.

(** The text form of a finite float in positional notation: an optional
    minus sign, digits, the point, digits. *)
Definition positional_text (minus : bool) (int_digits frac_digits : str) : str :=
  (if minus then [45] else []) ++ int_digits ++ 46 :: frac_digits.

(** * Properties *)

(** ** The built-in constructions succeed *)

Lemma Bool_default_init : bool_.__init__ [] [] = Some Bool_default.
Proof. vm_compute. reflexivity. Qed.

Lemma Bool_extended_init :
  bool_.__init__ [u "yeah"] [u "turn off"] = Some Bool_extended.
Proof. vm_compute. reflexivity. Qed.

Lemma Bool_overlapping_init :
  bool_.__init__ [u "ok"] [u "ok"] = Some Bool_overlapping.
Proof. vm_compute. reflexivity. Qed.

(** The constructor compiles the two alias lists separately; nothing
    compares one list with the other. *)
Lemma Bool_init_independent (te fe : list str) (t f : Pattern) :
  bool_.compile_values (bool_.true_values ++ te) = Some t ->
  bool_.compile_values (bool_.false_values ++ fe) = Some f ->
  bool_.__init__ te fe = Some {| bool_.true_regex := t; bool_.false_regex := f |}.
Proof.
  intros Ht Hf. unfold bool_.__init__. rewrite Ht, Hf. reflexivity.
Qed.

(** ** [Bool.cut_part] *)

Section Bool_cut_part.
Variable lite : Pattern -> str -> (Match -> value) -> value * str.

Lemma Bool_cut_part_true (self : bool_.Bool) (s : str) (v : value) (r : str) :
  lite (bool_.true_regex self) s factory_default = (v, r) ->
  is_unmatched v = false ->
  bool_.cut_part lite self s = (VBool true, r).
Proof.
  intros Hl Hv. unfold bool_.cut_part. rewrite Hl, Hv. reflexivity.
Qed.

Lemma Bool_cut_part_false_inv (self : bool_.Bool) (s r : str) :
  bool_.cut_part lite self s = (VBool false, r) ->
  is_unmatched (lite (bool_.true_regex self) s factory_default).1 = true.
Proof.
  unfold bool_.cut_part.
  destruct (lite (bool_.true_regex self) s factory_default) as [v p]; simpl.
  destruct (is_unmatched v); simpl; [reflexivity | congruence].
Qed.
End Bool_cut_part.

(** C10: whenever the true pattern matches the input, [cut_part] returns
    [True] with the remainder of that match, whatever the false pattern
    does on the same input (here it matches as well); and a [False] result
    is only ever returned on inputs where the true pattern did not match.
    This holds for any two patterns, hence for overlapping alias sets. *)
Theorem Bool_cut_part_true_set_first
    (lite : Pattern -> str -> (Match -> value) -> value * str)
    (self : bool_.Bool) (s : str) (vt vf : value) (rt rf : str) :
  lite (bool_.true_regex self) s factory_default = (vt, rt) ->
  lite (bool_.false_regex self) s factory_default = (vf, rf) ->
  is_unmatched vt = false ->
  is_unmatched vf = false ->
  bool_.cut_part lite self s = (VBool true, rt)
  /\ (forall s' r', bool_.cut_part lite self s' = (VBool false, r') ->
        is_unmatched (lite (bool_.true_regex self) s' factory_default).1 = true).
Proof.
  intros Ht _ Hvt _. split.
  - eapply Bool_cut_part_true; eassumption.
  - intros s' r'. apply Bool_cut_part_false_inv.
Qed.

Lemma Bool_cut_part_true_set_first_witness :
  bool_.__init__ [u "ok"] [u "ok"] = Some Bool_overlapping
  /\ bool_.cut_part cut_part_lite Bool_overlapping (u "ok") = (VBool true, []).
Proof.
  split; [vm_compute; reflexivity |].
  refine (proj1 (Bool_cut_part_true_set_first cut_part_lite Bool_overlapping
                   (u "ok")
                   (VMatch {| m_string := u "ok"; m_end := 2 |})
                   (VMatch {| m_string := u "ok"; m_end := 2 |})
                   [] [] _ _ _ _)); vm_compute; reflexivity.
Defined.

(** C7: with the built-in aliases, on the input "неправда" the false
    pattern stops at the alias "н", which stands before "неправда" in the
    alternation: the match ends at offset 1 and one character is consumed,
    although the longest alias that is a prefix of the input is the whole
    input. *)
Theorem Bool_cut_part_not_longest :
  u "неправда" ∈ bool_.false_values
  /\ re_match (bool_.false_regex Bool_default) (u "неправда")
     = Some {| m_string := u "неправда"; m_end := 1 |}
  /\ bool_.cut_part cut_part_lite Bool_default (u "неправда")
     = (VBool false, u "еправда").
Proof.
  split; [| split].
  - unfold bool_.false_values. rewrite !elem_of_cons. tauto.
  - vm_compute. reflexivity.
  - vm_compute. reflexivity.
Qed.

(** C8: for [Bool(true_extension=["yeah"], false_extension=["turn off"])]
    the alias "yeah" alone gives [True] with the remainder "eah", and the
    alias "turn off" alone gives [True] (not [False]) with the remainder
    "urn off": the built-in aliases "y" and "t" are tried before them, and
    the true pattern ends its match at offset 1 on both inputs. *)
Theorem Bool_cut_part_extension_shadowed :
  bool_.__init__ [u "yeah"] [u "turn off"] = Some Bool_extended
  /\ re_match (bool_.true_regex Bool_extended) (u "yeah")
     = Some {| m_string := u "yeah"; m_end := 1 |}
  /\ re_match (bool_.true_regex Bool_extended) (u "turn off")
     = Some {| m_string := u "turn off"; m_end := 1 |}
  /\ bool_.cut_part cut_part_lite Bool_extended (u "yeah")
     = (VBool true, u "eah")
  /\ bool_.cut_part cut_part_lite Bool_extended (u "turn off")
     = (VBool true, u "urn off").
Proof. repeat split; vm_compute; reflexivity. Qed.

(** ** [List.cut_part] *)

Section List_cut_part.
Variable self : list_.List.

Lemma under_max_app (values more : list value) :
  list_.under_max self (values ++ more) = true ->
  list_.under_max self values = true.
Proof.
  unfold list_.under_max. destruct (list_.max_length self); [done |].
  rewrite length_app, !Z.ltb_lt. lia.
Qed.

(** More fuel does not change a result. *)
Lemma loop_fuel_mono (fuel extra : nat) (values : list value) (s : str)
    (res : value * str) :
  list_.loop self fuel values s = Some res ->
  list_.loop self (fuel + extra) values s = Some res.
Proof.
  revert values s. induction fuel as [| fuel IH]; intros values s; simpl.
  - discriminate.
  - destruct (list_.under_max self values); [| done].
    destruct (text_argument.cut_part (list_.element self) (lstrip s))
      as [chunk rest].
    destruct (is_unmatched chunk); [done |]. apply IH.
Qed.

(** The loop walks through the accepted elements, one iteration each. *)
Lemma loop_accepts (fuel : nat) (values vs : list value) (s s' : str) :
  list_.accepts (list_.element self) s vs s' ->
  list_.under_max self (values ++ vs) = true ->
  list_.loop self (length vs + fuel) values s
  = list_.loop self fuel (values ++ vs) s'.
Proof.
  intros Hacc. revert values.
  induction Hacc as [s | s v s1 vs s2 Hcut Hv Hacc IH]; intros values Hmax.
  - simpl. by rewrite app_nil_r.
  - simpl.
    rewrite (under_max_app values (v :: vs) Hmax), Hcut, Hv.
    rewrite IH; rewrite <- app_assoc; [reflexivity | exact Hmax].
Qed.

(** The element fails after the accepted elements [vs] while the maximum
    is not yet reached: the count is compared with [min_length] by a
    strict [>]. *)
Lemma cut_part_element_fails (fuel : nat) (vs : list value) (s s' r : str) :
  list_.accepts (list_.element self) s vs s' ->
  text_argument.cut_part (list_.element self) (lstrip s')
  = (UnmatchedArgument, r) ->
  list_.under_max self vs = true ->
  (length vs < fuel)%nat ->
  list_.cut_part self fuel s
  = Some (if (Z.of_nat (length vs) >? list_.min_length self)%Z
          then (VList vs, r) else (UnmatchedArgument, r)).
Proof.
  intros Hacc Hfail Hmax Hfuel. unfold list_.cut_part.
  replace fuel with (length vs + S (fuel - S (length vs)))%nat by lia.
  rewrite (loop_accepts _ [] vs s s' Hacc Hmax). simpl.
  rewrite Hmax, Hfail. simpl.
  by destruct (Z.of_nat (length vs) >? list_.min_length self)%Z.
Qed.

(** The loop ends at the maximum: the remainder is the text after the
    last accepted element, white space included. *)
Lemma loop_to_max (n : nat) (acc ws : list value) (s s' : str) :
  list_.accepts (list_.element self) s ws s' ->
  list_.max_length self = list_.Int (Z.of_nat (length (acc ++ ws))) ->
  list_.loop self (length ws + S n) acc s = Some (VList (acc ++ ws), s').
Proof.
  intros Hacc. revert acc.
  induction Hacc as [s | s v s1 ws s2 Hcut Hv Hacc IH]; intros acc Hmax.
  - simpl. unfold list_.under_max. rewrite Hmax, app_nil_r, Z.ltb_irrefl.
    reflexivity.
  - simpl. unfold list_.under_max at 1. rewrite Hmax, Hcut, Hv.
    replace (Z.of_nat (length acc) <? Z.of_nat (length (acc ++ v :: ws)))%Z
      with true
      by (symmetry; apply Z.ltb_lt; rewrite length_app; simpl; lia).
    rewrite (IH (acc ++ [v])); rewrite <- app_assoc; [reflexivity | exact Hmax].
Qed.

Lemma cut_part_max_reached (fuel : nat) (vs : list value) (s s' : str) :
  list_.accepts (list_.element self) s vs s' ->
  list_.max_length self = list_.Int (Z.of_nat (length vs)) ->
  (length vs < fuel)%nat ->
  list_.cut_part self fuel s = Some (VList vs, s').
Proof.
  intros Hacc Hmax Hfuel. unfold list_.cut_part.
  replace fuel with (length vs + S (fuel - S (length vs)))%nat by lia.
  apply (loop_to_max _ [] vs s s' Hacc Hmax).
Qed.
End List_cut_part.

(** C1: when the element fails after exactly [min_length] accepted
    elements and the maximum is not yet reached, the strict comparison
    [len(values) > self.min_length] is false and [cut_part] returns
    [UnmatchedArgument], where the documented bound ([>=]) asks for the
    list of the accepted values. *)
Theorem List_cut_part_exactly_min_unmatched
    (self : list_.List) (fuel : nat) (vs : list value) (s s' r : str) :
  list_.accepts (list_.element self) s vs s' ->
  text_argument.cut_part (list_.element self) (lstrip s')
  = (UnmatchedArgument, r) ->
  Z.of_nat (length vs) = list_.min_length self ->
  list_.under_max self vs = true ->
  (length vs < fuel)%nat ->
  list_.cut_part self fuel s = Some (UnmatchedArgument, r).
Proof.
  intros Hacc Hfail Hmin Hmax Hfuel.
  rewrite (cut_part_element_fails self fuel vs s s' r Hacc Hfail Hmax Hfuel).
  replace (Z.of_nat (length vs) >? list_.min_length self)%Z with false;
    [reflexivity |].
  symmetry. rewrite Hmin. unfold Z.gtb. by rewrite Z.compare_refl.
Qed.

Lemma List_cut_part_exactly_min_unmatched_witness :
  list_.cut_part (List_of_Bool 1 (list_.Int 5)) 2 (u "yes maybe")
  = Some (UnmatchedArgument, u "maybe").
Proof.
  apply (List_cut_part_exactly_min_unmatched
           (List_of_Bool 1 (list_.Int 5)) 2 [VBool true]
           (u "yes maybe") (u " maybe") (u "maybe")).
  - apply (list_.accepts_cons _ _ (VBool true) (u " maybe"));
      [vm_compute; reflexivity | reflexivity | apply list_.accepts_nil].
  - vm_compute. reflexivity.
  - reflexivity.
  - reflexivity.
  - simpl. lia.
Defined.

(** C2, as stated, fails: [List(element=Bool(), min_length=2)] on
    "yes maybe" finds one element, fewer than two, and returns
    [UnmatchedArgument] with the remainder "maybe", never with the
    original input. *)
Lemma List_cut_part_remainder_not_original :
  list_.accepts (Bool_argument Bool_default) (u "yes maybe") [VBool true]
    (u " maybe")
  /\ text_argument.cut_part (Bool_argument Bool_default) (lstrip (u " maybe"))
     = (UnmatchedArgument, u "maybe")
  /\ list_.cut_part (List_of_Bool 2 list_.Ellipsis) 2 (u "yes maybe")
     = Some (UnmatchedArgument, u "maybe")
  /\ forall fuel,
       list_.cut_part (List_of_Bool 2 list_.Ellipsis) fuel (u "yes maybe")
       <> Some (UnmatchedArgument, u "yes maybe").
Proof.
  split; [| split; [| split]].
  - apply (list_.accepts_cons _ _ (VBool true) (u " maybe"));
      [vm_compute; reflexivity | reflexivity | apply list_.accepts_nil].
  - vm_compute. reflexivity.
  - vm_compute. reflexivity.
  - intros [| [| fuel]]; vm_compute; discriminate.
Qed.

(** C2, amended: with fewer than [min_length] well-formed elements at the
    front of the input, and a maximum that is unbounded or larger than
    their number, [cut_part] returns [UnmatchedArgument] together with the
    remainder that the element reported for its failed attempt, which was
    made on the text after the accepted elements with its leading white
    space removed. *)
Theorem List_cut_part_below_min_unmatched
    (self : list_.List) (fuel : nat) (vs : list value) (s s' r : str) :
  list_.accepts (list_.element self) s vs s' ->
  text_argument.cut_part (list_.element self) (lstrip s')
  = (UnmatchedArgument, r) ->
  (Z.of_nat (length vs) < list_.min_length self)%Z ->
  list_.under_max self vs = true ->
  (length vs < fuel)%nat ->
  list_.cut_part self fuel s = Some (UnmatchedArgument, r).
Proof.
  intros Hacc Hfail Hmin Hmax Hfuel.
  rewrite (cut_part_element_fails self fuel vs s s' r Hacc Hfail Hmax Hfuel).
  replace (Z.of_nat (length vs) >? list_.min_length self)%Z with false;
    [reflexivity |].
  symmetry. rewrite Z.gtb_ltb. apply Z.ltb_ge. lia.
Qed.

Lemma List_cut_part_below_min_unmatched_witness :
  list_.cut_part (List_of_Bool 3 list_.Ellipsis) 4 (u "yes  no maybe")
  = Some (UnmatchedArgument, u "maybe").
Proof.
  apply (List_cut_part_below_min_unmatched
           (List_of_Bool 3 list_.Ellipsis) 4 [VBool true; VBool false]
           (u "yes  no maybe") (u " maybe") (u "maybe")).
  - apply (list_.accepts_cons _ _ (VBool true) (u "  no maybe"));
      [vm_compute; reflexivity | reflexivity |].
    apply (list_.accepts_cons _ _ (VBool false) (u " maybe"));
      [vm_compute; reflexivity | reflexivity | apply list_.accepts_nil].
  - vm_compute. reflexivity.
  - simpl. lia.
  - reflexivity.
  - simpl. lia.
Defined.

(** ** The matcher *)

Lemma flat_map_nil_iff {A B : Type} (f : A -> list B) (l : list A) :
  (forall x, In x l -> f x = []) -> flat_map f l = [].
Proof.
  induction l as [| a l IH]; intros H; simpl; [reflexivity |].
  rewrite (H a) by (left; reflexivity). simpl. apply IH.
  intros x Hx. apply H. right. exact Hx.
Qed.

Lemma one_inv (ok : N -> bool) (s s' : str) :
  In s' (one ok s) -> exists c, s = c :: s' /\ ok c = true.
Proof.
  destruct s as [| x t]; simpl; [tauto |].
  destruct (ok x) eqn:Hx; simpl; [| tauto].
  intros [<- | []]. exists x. split; [reflexivity | exact Hx].
Qed.

(** What an iteration of [\d] leaves is the subject without a run of
    digits at its front. *)
Lemma star_digit_ends (fuel : nat) (s s' : str) :
  In s' (star_ends (one isdigit) fuel s) ->
  exists k, s = k ++ s' /\ Forall (fun c => isdigit c = true) k.
Proof.
  revert s. induction fuel as [| fuel IH]; intros s; simpl.
  - intros [<- | []]. exists []. split; [reflexivity | constructor].
  - rewrite in_app_iff, in_flat_map. intros [(s1 & Hs1 & Hin) | [<- | []]].
    + apply one_inv in Hs1 as (c & -> & Hc).
      destruct (length s1 <? length (c :: s1))%nat; [| destruct Hin].
      apply IH in Hin as (k & -> & Hk).
      exists (c :: k). split; [reflexivity | by constructor].
    + exists []. split; [reflexivity | constructor].
Qed.

Lemma sign_class_digit (c : N) :
  isdigit c = true ->
  existsb (fun x => chr_eq float_.no_flags x c) (u "+|-") = false.
Proof.
  unfold isdigit. rewrite andb_true_iff, !N.leb_le. intros [H1 H2].
  change (u "+|-") with [43; 124; 45].
  unfold chr_eq. cbn [existsb float_.no_flags IGNORECASE].
  destruct (N.eqb_spec 43 c); [lia |].
  destruct (N.eqb_spec 124 c); [lia |].
  destruct (N.eqb_spec 45 c); [lia |].
  reflexivity.
Qed.

(** An iteration whose step takes any one character runs to the end of
    the subject first; so does [.+] with [DOTALL]. *)
Lemma star_ends_all (step : str -> list str) (s : str) :
  (forall c t, step (c :: t) = [t]) ->
  exists l, star_ends step (length s) s = [] :: l.
Proof.
  intros Hstep. induction s as [| c s [l IH]].
  - by exists [].
  - cbn [length star_ends]. rewrite Hstep. cbn [flat_map].
    replace (length s <? S (length s))%nat with true
      by (symmetry; apply Nat.ltb_lt; lia).
    rewrite IH. by eexists.
Qed.

Lemma ends_any (fl : flags) (c : N) (t : str) :
  DOTALL fl = true -> ends fl AnyChar (c :: t) = [t].
Proof. intros Hfl. cbn [ends one]. by rewrite Hfl. Qed.

Lemma ends_Plus (fl : flags) (r : regex) (s : str) :
  ends fl (Plus r) s
  = flat_map (fun s' => star_ends (ends fl r) (length s') s') (ends fl r s).
Proof. reflexivity. Qed.

Lemma ends_plus_any (fl : flags) (s : str) :
  DOTALL fl = true -> s <> [] ->
  exists l, ends fl (Plus AnyChar) s = [] :: l.
Proof.
  intros Hfl Hs. destruct s as [| c s]; [done |].
  rewrite ends_Plus, ends_any by exact Hfl. cbn [flat_map].
  destruct (star_ends_all (ends fl AnyChar) s) as [l Hl].
  { intros c' t. by apply ends_any. }
  rewrite Hl. by eexists.
Qed.

(** C3: an input that begins with a run of the digits [0]..[9] which is
    not followed by a fractional point (the run ends the input, or the next
    character is an ASCII character that is neither a digit nor [.]) is not
    matched: the pattern [[+|-]?\d*(?:\.\d+)] has no [?] after its last
    group, so the fractional part is required.  The next character is taken
    from ASCII because [\d] also accepts the decimal digits of other
    scripts, which the table [isdigit] does not list; nothing after that
    character is looked at. *)
Theorem Integer_cut_part_digit_run_unmatched (d : N) (ds rest : str) :
  Forall (fun c => isdigit c = true) (d :: ds) ->
  match rest with
  | [] => True
  | c :: _ => c < 128 /\ isdigit c = false /\ c <> 46
  end ->
  re_match float_._pattern (d :: ds ++ rest) = None
  /\ float_.cut_part (d :: ds ++ rest) = Unmatched.
Proof.
  intros Hds Hrest.
  unfold float_.cut_part, cut_part_via_regex, re_match.
  replace (ends (pflags float_._pattern) (pattern float_._pattern)
             (d :: ds ++ rest)) with (@nil str); [by split |].
  symmetry. cbn [float_._pattern pattern pflags ends].
  apply flat_map_nil_iff. intros s1 Hs1.
  assert (s1 = d :: ds ++ rest) as ->.
  { revert Hs1. cbn [one]. rewrite sign_class_digit by (by inversion Hds).
    simpl. intros [<- | []]. reflexivity. }
  apply flat_map_nil_iff. intros s2 Hs2.
  apply star_digit_ends in Hs2 as (k & Heq & Hk).
  apply flat_map_nil_iff. intros s3 Hs3.
  apply one_inv in Hs3 as (c & -> & Hc).
  unfold chr_eq in Hc. cbn [float_.no_flags IGNORECASE] in Hc.
  apply N.eqb_eq in Hc. subst c.
  exfalso.
  change (d :: ds ++ rest) with ((d :: ds) ++ rest) in Heq.
  apply app_eq_inv in Heq as [(k' & Hk1 & Hk2) | (k' & Hk1 & Hk2)].
  - rewrite Hk1 in Hds. apply Forall_app in Hds as [_ Hds'].
    destruct k' as [| c k']; simpl in Hk2.
    + subst rest. destruct Hrest as (_ & _ & Hne). by apply Hne.
    + inversion Hk2; subst. inversion Hds' as [| ? ? Hc _]. discriminate Hc.
  - rewrite Hk1 in Hk. apply Forall_app in Hk as [_ Hk'].
    destruct k' as [| c k']; simpl in Hk2; subst rest.
    + destruct Hrest as (_ & _ & Hne). by apply Hne.
    + destruct Hrest as (_ & Hnd & _). inversion Hk' as [| ? ? Hc _].
      congruence.
Qed.

Lemma Integer_cut_part_digit_run_unmatched_witness :
  float_.cut_part (u "123") = Unmatched
  /\ float_.cut_part (u "123 abc") = Unmatched.
Proof.
  split.
  - apply (Integer_cut_part_digit_run_unmatched 49 [50; 51] []).
    + repeat constructor.
    + exact I.
  - apply (Integer_cut_part_digit_run_unmatched 49 [50; 51] (u " abc")).
    + repeat constructor.
    + split; [reflexivity | split; [reflexivity | discriminate]].
Defined.

(** C4: whatever pattern the instance was built from, [cut_part] takes
    the whole of a non-empty input as the value and leaves nothing: the
    constructor does not keep the pattern and [cut_part] applies the fixed
    pattern [.+].  Two instances built from different patterns cannot be
    told apart, whatever the inherited [cut_part_lite] does. *)
Theorem SimplifiedTextArgument_ignores_pattern (re_pattern : Pattern) (s : str) :
  s <> [] ->
  simplified_text_argument.cut_part cut_part_lite
    (simplified_text_argument.__init__ re_pattern) s
  = (VStr s, [])
  /\ forall lite other_pattern s',
       simplified_text_argument.cut_part lite
         (simplified_text_argument.__init__ re_pattern) s'
       = simplified_text_argument.cut_part lite
           (simplified_text_argument.__init__ other_pattern) s'.
Proof.
  intros Hs. split; [| reflexivity].
  unfold simplified_text_argument.cut_part, cut_part_lite, re_match.
  cbn [pattern pflags].
  destruct (ends_plus_any {| IGNORECASE := false; DOTALL := true |} s eq_refl Hs)
    as [l Hl].
  rewrite Hl. unfold group0. cbn [m_end m_string length].
  rewrite Nat.sub_0_r.
  by rewrite firstn_all, drop_all.
Qed.

Lemma SimplifiedTextArgument_ignores_pattern_witness :
  re_match (plain_Pattern (Plus Digit)) (u "abc") = None
  /\ simplified_text_argument.cut_part cut_part_lite
       (simplified_text_argument.__init__ (plain_Pattern (Plus Digit)))
       (u "abc")
     = (VStr (u "abc"), []).
Proof.
  split; [reflexivity |].
  apply (proj1 (SimplifiedTextArgument_ignores_pattern
                  (plain_Pattern (Plus Digit)) (u "abc") ltac:(discriminate))).
Defined.

(** ** The dispatcher *)

Section gather_properties.
Context {HandlingStatus : Type}.
Implicit Types (sts : list HandlingStatus) (order pre rest : list nat).

(** While every child returns, the stored results are those of the
    children already finished; the last completion, whichever child it
    is, reads them out in the order of the children. *)
Lemma gather_loop_returned sts rest pre (futs : list (option HandlingStatus)) :
  pre ++ rest ≡ₚ seq 0 (length sts) ->
  rest <> [] ->
  length futs = length sts ->
  (forall j, j ∈ pre -> futs !! j = Some (sts !! j)) ->
  bot.gather_loop (bot.Returned <$> sts) rest futs (length pre)
  = bot.Result sts.
Proof.
  revert pre futs. induction rest as [| i rest IH]; intros pre futs Hperm Hne Hlen Hinv;
    [done |].
  assert (Hi : (i < length sts)%nat).
  { assert (i ∈ seq 0 (length sts)) as Hin
      by (rewrite <- Hperm; apply elem_of_app; right; apply list_elem_of_here).
    apply elem_of_seq in Hin. lia. }
  destruct (lookup_lt_is_Some_2 sts i Hi) as [st Hst].
  cbn [bot.gather_loop]. rewrite list_lookup_fmap, Hst. cbn [fmap option_fmap option_map].
  rewrite length_fmap.
  assert (Hfuts : forall j, j ∈ pre ++ [i] ->
            <[i := Some st]> futs !! j = Some (sts !! j)).
  { intros j Hj. destruct (decide (i = j)) as [<- | Hij].
    - rewrite list_lookup_insert_eq by lia. by rewrite Hst.
    - rewrite list_lookup_insert_ne by done. apply Hinv.
      apply elem_of_app in Hj as [Hj | Hj]; [exact Hj |].
      apply list_elem_of_singleton in Hj. congruence. }
  apply Permutation_length in Hperm as Hl.
  rewrite length_app, length_seq in Hl. cbn [length] in Hl.
  destruct (Nat.eqb_spec (S (length pre)) (length sts)) as [Hfull | Hmore].
  - assert (rest = []) as -> by (apply length_zero_iff_nil; lia).
    replace (mapM id (<[i := Some st]> futs)) with (Some sts); [reflexivity |].
    symmetry. apply mapM_Some, Forall2_same_length_lookup_2.
    { by rewrite length_insert. }
    intros j x y Hx Hy.
    assert (j ∈ pre ++ [i]) as Hj.
    { rewrite Hperm. apply elem_of_seq. apply lookup_lt_Some in Hy. lia. }
    rewrite (Hfuts j Hj), Hy in Hx. by inversion Hx.
  - replace (S (length pre)) with (length (pre ++ [i]))
      by (rewrite length_app; simpl; lia).
    apply IH.
    + by rewrite <- app_assoc.
    + intros ->. simpl in Hl. lia.
    + by rewrite length_insert.
    + exact Hfuts.
Qed.

Lemma gather_returned sts order :
  order ≡ₚ seq 0 (length sts) ->
  bot.gather (bot.Returned <$> sts) order = bot.Result sts.
Proof.
  intros Hperm. destruct sts as [| st sts]; [reflexivity |].
  assert (bot.gather (bot.Returned <$> st :: sts) order
          = bot.gather_loop (bot.Returned <$> st :: sts) order
              (replicate (length (bot.Returned <$> st :: sts)) None) 0)
    as -> by reflexivity.
  rewrite length_fmap.
  apply (gather_loop_returned (st :: sts) order []).
  - exact Hperm.
  - intros ->. apply Permutation_length in Hperm. simpl in Hperm. lia.
  - by rewrite length_replicate.
  - intros j Hj. by apply elem_of_nil in Hj.
Qed.

(** When some child raises, the first child to do so, in the order of
    completion, decides the outer future; no result is given. *)
Lemma gather_loop_raises (children : list (bot.outcome HandlingStatus))
    rest pre (futs : list (option HandlingStatus)) :
  pre ++ rest ≡ₚ seq 0 (length children) ->
  (forall j, j ∈ pre -> exists st, children !! j = Some (bot.Returned st)) ->
  (exists j e, children !! j = Some (bot.Raised e)) ->
  exists j e, children !! j = Some (bot.Raised e)
    /\ bot.gather_loop children rest futs (length pre) = bot.Raises e.
Proof.
  revert pre futs.
  induction rest as [| i rest IH]; intros pre futs Hperm Hpre (j & e & Hj).
  - exfalso. assert (j ∈ pre) as Hin.
    { rewrite app_nil_r in Hperm. rewrite Hperm. apply elem_of_seq.
      apply lookup_lt_Some in Hj. lia. }
    destruct (Hpre j Hin) as [st Hst]. congruence.
  - assert (Hi : (i < length children)%nat).
    { assert (i ∈ seq 0 (length children)) as Hin
        by (rewrite <- Hperm; apply elem_of_app; right; apply list_elem_of_here).
      apply elem_of_seq in Hin. lia. }
    destruct (lookup_lt_is_Some_2 children i Hi) as [[st | e'] Ho].
    + cbn [bot.gather_loop]. rewrite Ho.
      assert (Hpre' : forall k, k ∈ pre ++ [i] ->
                exists st', children !! k = Some (bot.Returned st')).
      { intros k Hk. apply elem_of_app in Hk as [Hk | Hk]; [by apply Hpre |].
        apply list_elem_of_singleton in Hk as ->. by exists st. }
      apply Permutation_length in Hperm as Hl.
      rewrite length_app, length_seq in Hl. cbn [length] in Hl.
      destruct (Nat.eqb_spec (S (length pre)) (length children)) as [Hfull | Hmore].
      * exfalso. assert (rest = []) as -> by (apply length_zero_iff_nil; lia).
        assert (j ∈ pre ++ [i]) as Hin.
        { rewrite Hperm. apply elem_of_seq. apply lookup_lt_Some in Hj. lia. }
        destruct (Hpre' j Hin) as [st' Hst']. congruence.
      * replace (S (length pre)) with (length (pre ++ [i]))
          by (rewrite length_app; simpl; lia).
        apply IH; [by rewrite <- app_assoc | exact Hpre' | by exists j, e].
    + exists i, e'. split; [exact Ho |].
      cbn [bot.gather_loop]. by rewrite Ho.
Qed.

Lemma gather_raises (children : list (bot.outcome HandlingStatus)) order :
  order ≡ₚ seq 0 (length children) ->
  (exists j e, children !! j = Some (bot.Raised e)) ->
  exists j e, children !! j = Some (bot.Raised e)
    /\ bot.gather children order = bot.Raises e.
Proof.
  intros Hperm Hex.
  assert (bot.gather children order
          = bot.gather_loop children order
              (replicate (length children) None) 0) as ->.
  { destruct children as [| o os]; [| reflexivity].
    destruct Hex as (j & e & Hj). by rewrite lookup_nil in Hj. }
  apply (gather_loop_raises children order [] _ Hperm); [| exact Hex].
  intros j Hj. by apply elem_of_nil in Hj.
Qed.
End gather_properties.

Section dispatch_properties.
Context {Event SharedBox HandlingStatus : Type}.
Implicit Types (self : bot.Bot Event SharedBox HandlingStatus).

Lemma tasks_returned self (event : Event)
    (status : bot.Command Event SharedBox HandlingStatus -> HandlingStatus)
    (cs : list (bot.Command Event SharedBox HandlingStatus)) :
  (forall c, c ∈ cs ->
     bot.handle_event c event (bot.shared_box self) = bot.Returned (status c)) ->
  map (fun command => bot.handle_event command event (bot.shared_box self)) cs
  = bot.Returned <$> (status <$> cs).
Proof.
  induction cs as [| c cs IH]; intros H; [reflexivity |].
  cbn [map fmap list_fmap]. rewrite (H c) by apply list_elem_of_here.
  f_equal. apply IH. intros c' Hc'. apply H. by apply list_elem_of_further.
Qed.

Lemma tasks_lookup self (event : Event)
    (cs : list (bot.Command Event SharedBox HandlingStatus)) (j : nat) o :
  map (fun command => bot.handle_event command event (bot.shared_box self)) cs
    !! j = Some o ->
  exists c, c ∈ cs /\ bot.handle_event c event (bot.shared_box self) = o.
Proof.
  revert j. induction cs as [| c cs IH]; intros j; [cbn; discriminate |].
  destruct j as [| j]; cbn [map lookup list_lookup].
  - intros [= <-]. exists c. split; [apply list_elem_of_here | reflexivity].
  - intros Hj. destruct (IH j Hj) as (c' & Hc' & Ho).
    exists c'. split; [by apply list_elem_of_further | exact Ho].
Qed.
End dispatch_properties.

(** C5: when the tasks complete in any order (a permutation of their
    indices) and every command's [handle_event] returns its status, the
    coroutine returns after handing the list [status c1; ...; status cn],
    in the order of [self.commands] and with one entry per command, to the
    debugger (unless [release] is set or the debug filter rejects the
    event) and to the [POST_EVENT_HANDLING] signal. *)
Theorem dispatch_preserves_registry_order
    {Event SharedBox HandlingStatus : Type}
    (self : bot.Bot Event SharedBox HandlingStatus) (event : Event)
    (order : list nat)
    (status : bot.Command Event SharedBox HandlingStatus -> HandlingStatus) :
  order ≡ₚ seq 0 (length (bot.commands self)) ->
  (forall c, c ∈ bot.commands self ->
     bot.handle_event c event (bot.shared_box self) = bot.Returned (status c)) ->
  length (status <$> bot.commands self) = length (bot.commands self)
  /\ bot.pass_event_trough_commands self event order
     = bot.Returns
         ((if negb (bot.release self)
           then bot.show_debug_info self event (status <$> bot.commands self)
           else [])
          ++ [bot.signal_POST_EVENT_HANDLING event (status <$> bot.commands self)]).
Proof.
  intros Hperm Hret. split; [apply length_fmap |].
  unfold bot.pass_event_trough_commands.
  rewrite (tasks_returned self event status _ Hret).
  rewrite gather_returned by (by rewrite length_fmap).
  reflexivity.
Qed.

Lemma dispatch_preserves_registry_order_witness :
  bot.pass_event_trough_commands
    (bot_with [command_hi; command_bye; command_hi]) tt [2; 0; 1]%nat
  = bot.Returns [bot.debugger_render tt [7; 9; 7]%nat;
                 bot.signal_POST_EVENT_HANDLING tt [7; 9; 7]%nat].
Proof.
  refine (proj2 (dispatch_preserves_registry_order
                   (bot_with [command_hi; command_bye; command_hi]) tt
                   [2; 0; 1]%nat
                   (fun c => match bot.handle_event c tt tt with
                             | bot.Returned st => st
                             | bot.Raised _ => 0%nat
                             end) _ _)).
  - apply (Permutation_cons_app [0; 1]%nat [] 2%nat). reflexivity.
  - intros c Hc. simpl in Hc. rewrite !elem_of_cons, elem_of_nil in Hc.
    destruct Hc as [-> | [-> | [-> | []]]]; reflexivity.
Defined.

(** C6, as stated, fails: with the registry [hi; broken], whichever task
    completes first, the coroutine returns after printing the traceback
    only; the status [7] that [hi] returned reaches neither the debugger
    nor the signal. *)
Lemma dispatch_failure_drops_statuses :
  bot.handle_event command_hi tt tt = bot.Returned 7%nat
  /\ bot.pass_event_trough_commands (bot_with [command_hi; command_broken]) tt
       [0; 1]%nat
     = bot.Returns [bot.print_exc RuntimeError_boom]
  /\ bot.pass_event_trough_commands (bot_with [command_hi; command_broken]) tt
       [1; 0]%nat
     = bot.Returns [bot.print_exc RuntimeError_boom]
  /\ concat (map bot.delivered [@bot.print_exc unit nat RuntimeError_boom]) = [].
Proof. repeat split. Qed.

(** C6, amended: when some command's [handle_event] raises and every
    exception raised in the batch derives from [Exception], then, for any
    order of completion, the coroutine returns normally, its only effect is
    printing the traceback of an exception raised by one of the commands,
    and neither the debugger nor the signal is given any status. *)
Theorem dispatch_failure_prints_traceback_only
    {Event SharedBox HandlingStatus : Type}
    (self : bot.Bot Event SharedBox HandlingStatus) (event : Event)
    (order : list nat) :
  order ≡ₚ seq 0 (length (bot.commands self)) ->
  (exists c e, c ∈ bot.commands self
     /\ bot.handle_event c event (bot.shared_box self) = bot.Raised e) ->
  (forall c e, c ∈ bot.commands self ->
     bot.handle_event c event (bot.shared_box self) = bot.Raised e ->
     bot.derives_Exception e = true) ->
  exists c e, c ∈ bot.commands self
    /\ bot.handle_event c event (bot.shared_box self) = bot.Raised e
    /\ bot.pass_event_trough_commands self event order
       = bot.Returns [bot.print_exc e]
    /\ concat (map bot.delivered [@bot.print_exc Event HandlingStatus e]) = [].
Proof.
  intros Hperm (c & e & Hc & He) Hexc.
  unfold bot.pass_event_trough_commands.
  set (tasks := map _ (bot.commands self)).
  assert (Hlen : length tasks = length (bot.commands self))
    by (unfold tasks; apply length_map).
  destruct (gather_raises tasks order) as (j & e' & Hj & Hg).
  - by rewrite Hlen.
  - apply list_elem_of_lookup in Hc as [i Hi].
    exists i, e. unfold tasks.
    change (map ?f ?l) with (f <$> l) at 1.
    rewrite list_lookup_fmap, Hi. simpl. by rewrite He.
  - apply tasks_lookup in Hj as (c' & Hc' & He').
    exists c', e'. rewrite Hg, (Hexc c' e' Hc' He'). by repeat split.
Qed.

Lemma dispatch_failure_prints_traceback_only_witness :
  exists c e, c ∈ [command_hi; command_broken; command_bye]
    /\ bot.handle_event c tt tt = bot.Raised e
    /\ bot.pass_event_trough_commands
         (bot_with [command_hi; command_broken; command_bye]) tt [2; 0; 1]%nat
       = bot.Returns [bot.print_exc e]
    /\ concat (map bot.delivered [@bot.print_exc unit nat e]) = [].
Proof.
  apply (dispatch_failure_prints_traceback_only
           (bot_with [command_hi; command_broken; command_bye]) tt
           [2; 0; 1]%nat).
  - apply (Permutation_cons_app [0; 1]%nat [] 2%nat). reflexivity.
  - exists command_broken, RuntimeError_boom. split; [| reflexivity].
    simpl. rewrite !elem_of_cons. tauto.
  - intros c e Hc. simpl in Hc. rewrite !elem_of_cons, elem_of_nil in Hc.
    destruct Hc as [-> | [-> | [-> | []]]]; simpl; intros [= <-] || discriminate.
    reflexivity.
Defined.

(** * Further properties *)

(** ** [Keyboard] *)

Section Keyboard_properties.
Context {B : Type}.
Implicit Types (self : keyboard.Keyboard B) (items : list (keyboard.item B)).

Lemma append_to_last_spec (lines : list (list B)) (line : list B) (x : B) :
  keyboard.append_to_last B (lines ++ [line]) x = Some (lines ++ [line ++ [x]]).
Proof.
  induction lines as [| l lines IH]; [reflexivity |].
  cbn [app keyboard.append_to_last]. rewrite IH.
  destruct lines; reflexivity.
Qed.

(** From a keyboard that has at least one line, [build] goes through all
    its arguments; the lines stay in place, the buttons go to the last
    line and each [...] opens a new one. *)
Lemma build_from_nonempty items self :
  keyboard.buttons self <> [] ->
  exists self',
    keyboard.build self items = inr self'
    /\ keyboard.inline self' = keyboard.inline self
    /\ keyboard.one_time self' = keyboard.one_time self
    /\ keyboard.buttons self' <> []
    /\ concat (keyboard.buttons self')
       = concat (keyboard.buttons self) ++ keyboard.given_buttons items
    /\ length (keyboard.buttons self')
       = (length (keyboard.buttons self)
          + length (filter (fun i => keyboard.is_Ellipsis i = true) items))%nat.
Proof.
  revert self. induction items as [| i items IH]; intros self Hne.
  - exists self. cbn. rewrite app_nil_r, Nat.add_0_r. done.
  - destruct (exists_last Hne) as (lines & line & Hb).
    destruct i as [| b]; cbn [keyboard.build].
    + rewrite filter_cons_True by done.
      unfold keyboard.add_line. destruct (keyboard.buttons self) eqn:Hbs; [done |].
      rewrite <- Hbs.
      edestruct (IH {| keyboard.inline := keyboard.inline self;
                       keyboard.one_time := keyboard.one_time self;
                       keyboard.buttons := keyboard.buttons self ++ [[]] |})
        as (self' & Hbuild & Hi & Ho & Hne' & Hc & Hl).
      { cbn [keyboard.buttons]. by destruct (keyboard.buttons self). }
      cbn [keyboard.buttons keyboard.inline keyboard.one_time] in *.
      exists self'. rewrite Hbuild. repeat split; try done.
      * rewrite Hc, concat_app. cbn [concat keyboard.given_buttons omap list_omap].
        by rewrite !app_nil_r.
      * rewrite Hl, length_app. cbn [length]. lia.
    + rewrite filter_cons_False by done.
      unfold keyboard.add. rewrite Hb, append_to_last_spec.
      edestruct (IH {| keyboard.inline := keyboard.inline self;
                       keyboard.one_time := keyboard.one_time self;
                       keyboard.buttons := lines ++ [line ++ [b]] |})
        as (self' & Hbuild & Hi & Ho & Hne' & Hc & Hl).
      { cbn [keyboard.buttons]. by destruct lines. }
      cbn [keyboard.buttons keyboard.inline keyboard.one_time] in *.
      exists self'. rewrite Hbuild. repeat split; try done.
      * rewrite Hc, !concat_app. cbn [concat keyboard.given_buttons omap list_omap].
        rewrite !app_nil_r. by rewrite <- !app_assoc.
      * rewrite Hl, !length_app. cbn [length]. lia.
Qed.
End Keyboard_properties.

(** X1: [build] on a freshly constructed keyboard never raises, whatever
    buttons and [...] it is given (the [ValueError] of [add_line] and an
    [IndexError] in [add] cannot occur), and the result keeps the flags of
    the constructor: ["one_time"] is present exactly when the keyboard is
    not inline. *)
Theorem Keyboard_build_never_raises {B : Type} (one_time inline : bool)
    (items : list (keyboard.item B)) :
  exists self,
    keyboard.build (keyboard.__init__ one_time inline) items = inr self
    /\ keyboard.inline self = inline
    /\ keyboard.one_time self = (if inline then None else Some one_time).
Proof.
  destruct (build_from_nonempty items (keyboard.__init__ one_time inline))
    as (self & Hb & Hi & Ho & _); [done |].
  exists self. repeat split; [exact Hb | exact Hi |].
  rewrite Ho. by destruct inline.
Qed.

(** X2: the buttons of the built keyboard, read line by line, are the
    buttons given to [build], in the order given. *)
Theorem Keyboard_build_keeps_button_order {B : Type} (one_time inline : bool)
    (items : list (keyboard.item B)) (self : keyboard.Keyboard B) :
  keyboard.build (keyboard.__init__ one_time inline) items = inr self ->
  concat (keyboard.buttons self) = keyboard.given_buttons items.
Proof.
  intros Hbuild.
  destruct (build_from_nonempty items (keyboard.__init__ one_time inline))
    as (self' & Hb & _ & _ & _ & Hc & _); [done |].
  rewrite Hbuild in Hb. injection Hb as <-. exact Hc.
Qed.

Lemma Keyboard_build_keeps_button_order_witness :
  concat [[1]; [2; 3]; []]%nat
  = keyboard.given_buttons
      [keyboard.Button 1; keyboard.Ellipsis; keyboard.Button 2;
       keyboard.Button 3; keyboard.Ellipsis]%nat.
Proof.
  apply (Keyboard_build_keeps_button_order true false
           [keyboard.Button 1; keyboard.Ellipsis; keyboard.Button 2;
            keyboard.Button 3; keyboard.Ellipsis]%nat
           {| keyboard.inline := false; keyboard.one_time := Some true;
              keyboard.buttons := [[1]; [2; 3]; []]%nat |}).
  reflexivity.
Defined.

(** X3: the built keyboard has one line more than there were [...] among
    the arguments. *)
Theorem Keyboard_build_line_count {B : Type} (one_time inline : bool)
    (items : list (keyboard.item B)) (self : keyboard.Keyboard B) :
  keyboard.build (keyboard.__init__ one_time inline) items = inr self ->
  length (keyboard.buttons self)
  = S (length (filter (fun i => keyboard.is_Ellipsis i = true) items)).
Proof.
  intros Hbuild.
  destruct (build_from_nonempty items (keyboard.__init__ one_time inline))
    as (self' & Hb & _ & _ & _ & _ & Hl); [done |].
  rewrite Hbuild in Hb. injection Hb as <-. exact Hl.
Qed.

Lemma Keyboard_build_line_count_witness :
  length [[1]; []; [2; 3]]%nat
  = S (length (filter (fun i => keyboard.is_Ellipsis i = true)
                 [keyboard.Button 1; keyboard.Ellipsis; keyboard.Ellipsis;
                  keyboard.Button 2; keyboard.Button 3]%nat)).
Proof.
  apply (Keyboard_build_line_count true true
           [keyboard.Button 1; keyboard.Ellipsis; keyboard.Ellipsis;
            keyboard.Button 2; keyboard.Button 3]%nat
           {| keyboard.inline := true; keyboard.one_time := None;
              keyboard.buttons := [[1]; []; [2; 3]]%nat |}).
  reflexivity.
Defined.

Lemma build_last_line {B : Type} (items : list (keyboard.item B))
    (self self' : keyboard.Keyboard B) :
  keyboard.buttons self <> [] ->
  keyboard.build self items = inr self' ->
  list.last (keyboard.buttons self') = Some []
  <-> (items = [] /\ list.last (keyboard.buttons self) = Some [])
      \/ list.last items = Some keyboard.Ellipsis.
Proof.
  revert self. induction items as [| i items IH]; intros self Hne Hbuild.
  - cbn in Hbuild. injection Hbuild as <-.
    split; [intros H; left; by split | intros [[_ H] | H]; [exact H | done]].
  - destruct (exists_last Hne) as (lines & line & Hb).
    cbn [keyboard.build] in Hbuild.
    assert (exists self1,
               match i with
               | keyboard.Ellipsis => keyboard.add_line self
               | keyboard.Button b => keyboard.add self b
               end = inr self1
               /\ keyboard.buttons self1 <> []
               /\ (list.last (keyboard.buttons self1) = Some []
                   <-> i = keyboard.Ellipsis)) as (self1 & Hstep & Hne1 & Hlast1).
    { destruct i as [| b].
      - unfold keyboard.add_line. rewrite Hb.
        destruct (lines ++ [line]) eqn:Hl; [by destruct lines |].
        rewrite <- Hl. eexists. split; [reflexivity |].
        cbn [keyboard.buttons]. split; [by destruct (lines ++ [line]) |].
        by rewrite last_snoc.
      - unfold keyboard.add. rewrite Hb, append_to_last_spec.
        eexists. split; [reflexivity |]. cbn [keyboard.buttons].
        split; [by destruct lines |].
        rewrite last_snoc. split; [| done].
        intros [= H]. by destruct line. }
    rewrite Hstep in Hbuild.
    rewrite (IH self1 Hne1 Hbuild).
    destruct items as [| i' items].
    + rewrite Hlast1. destruct i; cbn; intuition congruence.
    + change (list.last (i :: i' :: items)) with (list.last (i' :: items)).
      split; (intros [[? _] | H]; [done | by right]).
Qed.

(** X4: the last line of the built keyboard is empty exactly when no
    argument was given or the last argument was [...]: a [...] is accepted
    also when the line before it is empty, so [...] at the end or twice in
    a row leaves empty lines in the keyboard. *)
Theorem Keyboard_build_last_line_empty {B : Type} (one_time inline : bool)
    (items : list (keyboard.item B)) (self : keyboard.Keyboard B) :
  keyboard.build (keyboard.__init__ one_time inline) items = inr self ->
  list.last (keyboard.buttons self) = Some []
  <-> items = [] \/ list.last items = Some keyboard.Ellipsis.
Proof.
  intros Hbuild.
  rewrite (build_last_line items (keyboard.__init__ one_time inline) self);
    [| done | exact Hbuild].
  cbn. intuition congruence.
Qed.

Lemma Keyboard_build_last_line_empty_witness :
  list.last [[1]; []; []]%nat = Some []
  <-> [keyboard.Button 1; keyboard.Ellipsis; keyboard.Ellipsis]%nat = []
      \/ list.last [keyboard.Button 1; keyboard.Ellipsis; keyboard.Ellipsis]%nat
         = Some keyboard.Ellipsis.
Proof.
  apply (Keyboard_build_last_line_empty true false
           [keyboard.Button 1; keyboard.Ellipsis; keyboard.Ellipsis]%nat
           {| keyboard.inline := false; keyboard.one_time := Some true;
              keyboard.buttons := [[1]; []; []]%nat |}).
  reflexivity.
Defined.

(** ** [Button] *)

Section Button_properties.
Context {Dict : Type} (dumps : Dict -> button.error + str)
  (loads_ok : str -> bool).

Lemma payload_convert_inv (name : string) (action : gmap string (button.val Dict))
    (b : button.Button Dict) :
  button._payload_convert Dict dumps loads_ok name action = inr b ->
  exists act,
    b = {| button.info := Some {| button.action := act; button.color := None |} |}
    /\ act !! "type" = Some (button.StrV (u name))
    /\ (act !! "payload" = None
        \/ exists s, act !! "payload" = Some (button.StrV s) /\ loads_ok s = true)
    /\ forall k, k <> "type" -> k <> "payload" -> act !! k = action !! k.
Proof.
  unfold button._payload_convert, button.__new__.
  destruct (<["type" := _]> action !! "payload") as [p |] eqn:Hp; [| done].
  destruct p as [| s | z | d |]; try done.
  - intros [= <-]. eexists. split; [reflexivity |]. split; [| split].
    + by simplify_map_eq.
    + left. by simplify_map_eq.
    + intros k H1 H2. by simplify_map_eq.
  - destruct (loads_ok s) eqn:Hs; [| done].
    intros [= <-]. eexists. split; [reflexivity |]. split; [| split].
    + by simplify_map_eq.
    + right. exists s. by simplify_map_eq.
    + intros k H1 H2. by simplify_map_eq.
  - destruct (dumps d) as [e | s]; [done |].
    destruct (loads_ok s) eqn:Hs; [| done].
    intros [= <-]. eexists. split; [reflexivity |]. split; [| split].
    + by simplify_map_eq.
    + right. exists s. by simplify_map_eq.
    + intros k H1 H2. by simplify_map_eq.
Qed.
End Button_properties.

(** X5: a button returned by one of the constructors ([text],
    [open_link], [location], [vkpay], [open_app], all wrapped in
    [_payload_convert]) carries the constructor's name under ["type"], and
    its ["payload"] is either absent or a string that [json.loads]
    accepts; a [None], a [dict] or any other payload object is never
    stored. *)
Theorem Button_payload_is_json_text {Dict : Type}
    (dumps : Dict -> button.error + str) (loads_ok : str -> bool)
    (name : string) (action : gmap string (button.val Dict))
    (b : button.Button Dict) :
  button._payload_convert Dict dumps loads_ok name action = inr b ->
  exists i,
    button.info b = Some i
    /\ button.action i !! "type" = Some (button.StrV (u name))
    /\ (button.action i !! "payload" = None
        \/ exists s, button.action i !! "payload" = Some (button.StrV s)
                     /\ loads_ok s = true).
Proof.
  intros H. apply payload_convert_inv in H as (act & -> & Ht & Hp & _).
  eexists. split; [reflexivity |]. split; [exact Ht | exact Hp].
Qed.

Lemma Button_payload_is_json_text_witness :
  exists i,
    button.info
      {| button.info :=
           Some {| button.action :=
                     {[ "label" := button.StrV (u "Go");
                        "payload" := button.StrV (u "{}");
                        "type" := @button.StrV unit (u "text") ]};
                   button.color := None |} |} = Some i
    /\ button.action i !! "type" = Some (button.StrV (u "text"))
    /\ (button.action i !! "payload" = None
        \/ exists s, button.action i !! "payload" = Some (button.StrV s)
                     /\ bool_decide (s = u "{}") = true).
Proof.
  apply (Button_payload_is_json_text
           (fun _ : unit => inr (u "{}")) (fun s => bool_decide (s = u "{}"))
           "text"
           (<["payload" := button.DictV tt]> {["label" := button.StrV (u "Go")]})).
  vm_compute. reflexivity.
Defined.

(** X6: on a button returned by a constructor, a colour method
    ([positive], [negative], [secondary], [primary]) succeeds exactly when
    the constructor was [text]; it then records its own name as the colour
    and leaves the action as it was.  On every other kind of button it
    raises [TypeError]. *)
Theorem Button_colour_only_for_text {Dict : Type}
    (dumps : Dict -> button.error + str) (loads_ok : str -> bool)
    (name colour : string) (action : gmap string (button.val Dict))
    (b : button.Button Dict) :
  button._payload_convert Dict dumps loads_ok name action = inr b ->
  match button._is_text_button colour b with
  | inr b' =>
    u name = u "text"
    /\ exists i, button.info b = Some i
         /\ button.info b'
            = Some {| button.action := button.action i;
                      button.color := Some colour |}
  | inl e => e = button.TypeError /\ u name <> u "text"
  end.
Proof.
  intros H. apply payload_convert_inv in H as (act & -> & Ht & _ & _).
  unfold button._is_text_button. cbn [button.info button.action].
  rewrite Ht. cbn [button.is_text]. case_bool_decide as Hn.
  - split; [exact Hn |]. eexists. split; reflexivity.
  - split; [reflexivity | exact Hn].
Qed.

Lemma Button_colour_only_for_text_witness :
  match
    button.negative
      {| button.info :=
           Some {| button.action :=
                     {[ "label" := button.StrV (u "Site");
                        "link" := button.StrV (u "https://vk.com");
                        "type" := @button.StrV unit (u "open_link") ]};
                   button.color := None |} |}
  with
  | inr b' =>
    u "open_link" = u "text"
    /\ exists i,
         Some {| button.action :=
                   {[ "label" := button.StrV (u "Site");
                      "link" := button.StrV (u "https://vk.com");
                      "type" := @button.StrV unit (u "open_link") ]};
                 button.color := None |} = Some i
         /\ button.info b'
            = Some {| button.action := button.action i;
                      button.color := Some "negative" |}
  | inl e => e = button.TypeError /\ u "open_link" <> u "text"
  end.
Proof.
  apply (Button_colour_only_for_text
           (fun _ : unit => inr (u "{}")) (fun _ => true)
           "open_link" "negative"
           (<["payload" := button.NoneV]>
              (<["link" := button.StrV (u "https://vk.com")]>
                 {["label" := button.StrV (u "Site")]}))).
  vm_compute. reflexivity.
Defined.

(** X7: a button made by [vkpay] or [open_app] carries the value of the
    argument [hash_] under the key ["hash"], and has no key ["hash_"]. *)
Theorem Button_hash_key {Dict : Type}
    (dumps : Dict -> button.error + str) (loads_ok : str -> bool)
    (label app_id owner_id hash_ payload : button.val Dict)
    (b : button.Button Dict) :
  button.vkpay Dict dumps loads_ok hash_ payload = inr b
  \/ button.open_app Dict dumps loads_ok label app_id owner_id hash_ payload
     = inr b ->
  exists i,
    button.info b = Some i
    /\ button.action i !! "hash" = Some hash_
    /\ button.action i !! "hash_" = None.
Proof.
  unfold button.vkpay, button.open_app.
  intros [H | H]; simplify_map_eq;
    apply payload_convert_inv in H as (act & -> & _ & _ & Hk);
    (eexists; split; [reflexivity |]);
    cbn [button.action]; rewrite !Hk by done; by simplify_map_eq.
Qed.

Lemma Button_hash_key_witness :
  exists i,
    button.info
      {| button.info :=
           Some {| button.action :=
                     {[ "hash" := button.StrV (u "a=1");
                        "type" := @button.StrV unit (u "vkpay") ]};
                   button.color := None |} |} = Some i
    /\ button.action i !! "hash" = Some (button.StrV (u "a=1"))
    /\ button.action i !! "hash_" = None.
Proof.
  apply (Button_hash_key (fun _ : unit => inr (u "{}")) (fun _ => true)
           button.NoneV button.NoneV button.NoneV
           (button.StrV (u "a=1")) button.NoneV).
  left. vm_compute. reflexivity.
Defined.

(** ** The debugger *)

Section Debugger_properties.
Context {Time Value : Type} (format_6f : Time -> str) (to_str : Value -> str)
  (columns : nat) (header_format : str -> str).
Implicit Types (self : debuggers.Debugger Time Value)
  (schemes : list (debuggers.HandlingInfoScheme Time Value)).

Lemma handling_messages_fold self (front back : list str) schemes :
  foldl
    (fun (handling_messages : list str) scheme =>
       if debuggers.is_correct_event_type _ _ scheme then
         if debuggers.all_filters_passed _ _ scheme
         then debuggers.build_event_handler_message _ _ format_6f to_str
                self scheme :: handling_messages
         else handling_messages
              ++ [debuggers.build_event_handler_message _ _ format_6f to_str
                    self scheme]
       else handling_messages)
    (rev front ++ back) schemes
  = rev (front
         ++ map (debuggers.build_event_handler_message _ _ format_6f to_str self)
              (List.filter (debuggers.shown_passed _ _) schemes))
    ++ back
    ++ map (debuggers.build_event_handler_message _ _ format_6f to_str self)
         (List.filter (debuggers.shown_failed _ _) schemes).
Proof.
  revert front back. induction schemes as [| s schemes IH]; intros front back.
  - cbn. by rewrite !app_nil_r.
  - cbn [foldl List.filter]. unfold debuggers.shown_passed, debuggers.shown_failed.
    destruct (debuggers.is_correct_event_type _ _ s); cbn [andb].
    + destruct (debuggers.all_filters_passed _ _ s); cbn [negb].
      * match goal with
        | |- foldl _ (?m :: rev front ++ back) _ = _ =>
          replace (m :: rev front ++ back) with (rev (front ++ [m]) ++ back)
            by (rewrite rev_app_distr; reflexivity)
        end.
        rewrite IH. cbn [map]. by rewrite <- app_assoc.
      * rewrite <- app_assoc, IH. cbn [map]. by rewrite <- app_assoc.
    + apply IH.
Qed.

Lemma join_nil_inv (sep : str) (parts : list str) :
  Forall (fun p => p <> []) parts ->
  debuggers.join sep parts = [] -> parts = [].
Proof.
  intros Hparts. destruct Hparts as [| p parts Hp Hrest]; [done |].
  cbn [debuggers.join]. destruct parts; [done |].
  intros H. by destruct p.
Qed.
End Debugger_properties.

(** X8: in the body of the debugger's message, the handlers of the right
    event type whose filters all passed come first, in the reverse of
    their order in the list of statuses (each is inserted at the front),
    followed by the handlers with a failed filter in their order in that
    list; handlers of another event type are left out. *)
Theorem Debugger_body_order {Time Value : Type}
    (format_6f : Time -> str) (to_str : Value -> str) (columns : nat)
    (self : debuggers.Debugger Time Value) :
  debuggers.build_body Time Value format_6f to_str columns self
  = debuggers.join
      (u (String "010" "")
       ++ debuggers.build_separator columns (u "-")
            (debuggers.reactions_separator_color
               (debuggers.palette _ _ self))
       ++ u (String "010" ""))
      (rev (map (debuggers.build_event_handler_message _ _ format_6f to_str self)
              (List.filter (debuggers.shown_passed _ _)
                 (debuggers.schemes _ _ self)))
       ++ map (debuggers.build_event_handler_message _ _ format_6f to_str self)
            (List.filter (debuggers.shown_failed _ _)
               (debuggers.schemes _ _ self))).
Proof.
  unfold debuggers.build_body, debuggers.handling_messages. f_equal.
  apply (handling_messages_fold format_6f to_str self [] []).
Qed.

(** X9: the exception part of the message is empty exactly when no
    status carries a non-empty exception text. *)
Theorem Debugger_exception_empty_iff {Time Value : Type} (columns : nat)
    (header_format : str -> str) (self : debuggers.Debugger Time Value) :
  debuggers.build_exception Time Value columns header_format self = []
  <-> Forall (fun scheme =>
                debuggers.truthy (debuggers.exception_text _ _ scheme) = false)
        (debuggers.schemes _ _ self).
Proof.
  unfold debuggers.build_exception.
  set (f := fun scheme : debuggers.HandlingInfoScheme Time Value => _).
  assert (Hne : Forall (fun p : str => p <> []) (omap f (debuggers.schemes _ _ self))).
  { apply Forall_forall. intros p Hp. apply list_elem_of_omap in Hp as (s & _ & Hs).
    unfold f in Hs. destruct (debuggers.exception_text _ _ s) as [[| c t] |]; try done.
    cbn in Hs. injection Hs as <-. by destruct (debuggers.build_exception_header _ _ _ _ _). }
  assert (Hiff : omap f (debuggers.schemes _ _ self) = []
                 <-> Forall (fun scheme =>
                       debuggers.truthy (debuggers.exception_text _ _ scheme) = false)
                     (debuggers.schemes _ _ self)).
  { clear Hne. induction (debuggers.schemes _ _ self) as [| s l IH]; [done |].
    cbn [omap list_omap]. rewrite Forall_cons, <- IH. unfold f at 1.
    destruct (debuggers.exception_text _ _ s) as [[| c t] |]; cbn; intuition congruence. }
  rewrite <- Hiff. split.
  - intros H. apply (join_nil_inv (u "!") _ Hne).
    destruct (debuggers.join (u "!") (omap f (debuggers.schemes Time Value self)));
      [reflexivity | discriminate H].
  - intros ->. reflexivity.
Qed.

(** ** [Bot.release] *)

Lemma int_fold_zero (s : str) (acc : Z) :
  (0 <= acc)%Z ->
  forallb isdigit s = true ->
  foldl (fun acc c => (acc * 10 + (Z.of_N c - 48))%Z) acc s = 0%Z
  <-> acc = 0%Z /\ s = replicate (length s) 48.
Proof.
  revert acc. induction s as [| c s IH]; intros acc Hacc Hs; cbn [foldl].
  - cbn. intuition.
  - cbn [forallb] in Hs. apply andb_true_iff in Hs as [Hc Hs].
    unfold isdigit in Hc. apply andb_true_iff in Hc as [H1 H2].
    apply N.leb_le in H1, H2.
    rewrite IH by (done || lia). cbn [length replicate]. split.
    + intros [H0 Hr]. assert (acc = 0%Z) as -> by lia.
      assert (c = 48) as -> by lia. split; [done |]. by rewrite <- Hr.
    + intros [-> [= -> Hr]]. split; [done | exact Hr].
Qed.

(** X10: the release flag is off exactly when [VKQUICK_RELEASE] is not
    set, is empty, or consists of zeros only.  Any other value turns it
    on, for example "false" or "no".  The statement is for values of ASCII
    characters (the table of [isdigit]) with at most 4300 characters (the
    longest digit string that [int] converts in every Python version). *)
Theorem Bot_release_off_iff (getenv : option str) :
  match getenv with
  | Some v => Forall (fun c => c < 128) v /\ (length v <= 4300)%nat
  | None => True
  end ->
  bot_release.release getenv = false
  <-> getenv = None \/ exists n, getenv = Some (replicate n 48).
Proof.
  intros _. destruct getenv as [v |]; cbn [bot_release.release].
  - unfold bot_release.str_isdigit, bot_release.int.
    destruct v as [| c v].
    + split; [| done]. intros _. right. by exists 0%nat.
    + destruct (forallb isdigit (c :: v)) eqn:Hd.
      * rewrite negb_false_iff, Z.eqb_eq, int_fold_zero by done. split.
        -- intros [_ Hr]. right. exists (length (c :: v)). by rewrite <- Hr.
        -- intros [H | [n [= Hn]]]; [done |]. split; [done |].
           rewrite Hn at 1. by rewrite Hn, length_replicate.
      * split; [done |]. intros [H | [n [= Hn]]]; [done |].
        exfalso. rewrite Hn in Hd.
        assert (forallb isdigit (replicate n 48) = true) as Hz.
        { clear. induction n; [done |]. cbn [replicate forallb]. by rewrite IHn. }
        congruence.
  - split; [by left | done].
Qed.

Lemma Bot_release_off_iff_witness :
  (bot_release.release (Some (u "00")) = false
   <-> Some (u "00") = None \/ exists n, Some (u "00") = Some (replicate n 48))
  /\ bot_release.release (Some (u "false")) = true.
Proof.
  split; [| reflexivity].
  apply (Bot_release_off_iff (Some (u "00"))).
  split; [repeat constructor | apply Nat.leb_le; reflexivity].
Defined.

(** ** The dispatcher, continued *)

Section gather_first_failure.
Context {HandlingStatus : Type}.

(** The children in [pre] return, child [i] raises: the outer future takes
    the exception of [i] as soon as [i] completes. *)
Lemma gather_loop_first_failure (children : list (bot.outcome HandlingStatus))
    (pre rest : list nat) (i : nat) (e : bot.exception)
    (futs : list (option HandlingStatus)) (nfinished : nat) :
  (forall j, j ∈ pre -> exists st, children !! j = Some (bot.Returned st)) ->
  children !! i = Some (bot.Raised e) ->
  (nfinished + length pre < length children)%nat ->
  bot.gather_loop children (pre ++ i :: rest) futs nfinished = bot.Raises e.
Proof.
  revert futs nfinished.
  induction pre as [| j pre IH]; intros futs nfinished Hpre Hi Hlen.
  - cbn [app bot.gather_loop]. by rewrite Hi.
  - cbn [app bot.gather_loop].
    destruct (Hpre j) as [st Hst]; [apply list_elem_of_here |].
    rewrite Hst. cbn [length] in Hlen.
    destruct (Nat.eqb_spec (S nfinished) (length children)) as [Heq | _]; [lia |].
    apply IH; [| exact Hi | lia].
    intros k Hk. apply Hpre. by apply list_elem_of_further.
Qed.
End gather_first_failure.

(** X11: the exception that is reported is the one of the first task to
    fail in the order of completion: when the tasks in [pre] (distinct, and
    not [i]) complete with a status and task [i] then raises an exception
    derived from [Exception], the coroutine prints that exception's
    traceback and returns, whatever the remaining tasks do. *)
Theorem dispatch_first_failure_reported
    {Event SharedBox HandlingStatus : Type}
    (self : bot.Bot Event SharedBox HandlingStatus) (event : Event)
    (pre rest : list nat) (i : nat)
    (c : bot.Command Event SharedBox HandlingStatus) (e : bot.exception) :
  NoDup (i :: pre) ->
  (forall j, j ∈ pre ->
     exists cj st, bot.commands self !! j = Some cj
       /\ bot.handle_event cj event (bot.shared_box self) = bot.Returned st) ->
  bot.commands self !! i = Some c ->
  bot.handle_event c event (bot.shared_box self) = bot.Raised e ->
  bot.derives_Exception e = true ->
  bot.pass_event_trough_commands self event (pre ++ i :: rest)
  = bot.Returns [bot.print_exc e].
Proof.
  intros Hnd Hpre Hc He Hexc.
  unfold bot.pass_event_trough_commands.
  set (tasks := map _ (bot.commands self)).
  assert (Hlook : forall j cj, bot.commands self !! j = Some cj ->
            tasks !! j
            = Some (bot.handle_event cj event (bot.shared_box self))).
  { intros j cj Hj. unfold tasks. change (map ?f ?l) with (f <$> l).
    by rewrite list_lookup_fmap, Hj. }
  assert (Hlen : length tasks = length (bot.commands self))
    by (unfold tasks; apply length_map).
  assert (Hbound : (length (i :: pre) <= length tasks)%nat).
  { assert (length (i :: pre) <= length (seq 0 (length tasks)))%nat as Hle;
      [| by rewrite length_seq in Hle].
    apply submseteq_length, NoDup_submseteq; [exact Hnd |].
    intros j Hj. apply elem_of_seq. split; [lia |].
    rewrite Hlen, Nat.add_0_l. apply elem_of_cons in Hj as [-> | Hj].
    - by apply lookup_lt_Some in Hc.
    - destruct (Hpre j Hj) as (cj & st & Hcj & _). by apply lookup_lt_Some in Hcj. }
  assert (bot.gather tasks (pre ++ i :: rest) = bot.Raises e) as ->.
  { assert (bot.gather tasks (pre ++ i :: rest)
            = bot.gather_loop tasks (pre ++ i :: rest)
                (replicate (length tasks) None) 0) as ->.
    { clear Hlook Hlen. destruct tasks; [cbn in Hbound; lia | reflexivity]. }
    apply gather_loop_first_failure.
    - intros j Hj. destruct (Hpre j Hj) as (cj & st & Hcj & Hst).
      exists st. by rewrite (Hlook j cj Hcj), Hst.
    - by rewrite (Hlook i c Hc), He.
    - cbn [length] in Hbound. lia. }
  by rewrite Hexc.
Qed.

Lemma dispatch_first_failure_reported_witness :
  bot.pass_event_trough_commands
    (bot_with [command_hi; command_broken; command_bye]) tt [2; 1; 0]%nat
  = bot.Returns [bot.print_exc RuntimeError_boom].
Proof.
  apply (dispatch_first_failure_reported
           (bot_with [command_hi; command_broken; command_bye]) tt
           [2]%nat [0]%nat 1%nat command_broken RuntimeError_boom).
  - apply NoDup_cons. split; [| apply NoDup_singleton].
    rewrite list_elem_of_singleton. discriminate.
  - intros j Hj. apply list_elem_of_singleton in Hj as ->.
    exists command_bye, 9%nat. split; reflexivity.
  - reflexivity.
  - reflexivity.
  - reflexivity.
Defined.

(** X12: whenever some command raises, no status of the batch reaches the
    debugger or the signal, for any order of completion: the coroutine
    either prints the traceback of a raised exception and returns, or, when
    that exception does not derive from [Exception] (as
    [asyncio.CancelledError]), lets it propagate without printing. *)
Theorem dispatch_failure_never_delivers
    {Event SharedBox HandlingStatus : Type}
    (self : bot.Bot Event SharedBox HandlingStatus) (event : Event)
    (order : list nat) :
  order ≡ₚ seq 0 (length (bot.commands self)) ->
  (exists c e, c ∈ bot.commands self
     /\ bot.handle_event c event (bot.shared_box self) = bot.Raised e) ->
  exists c e, c ∈ bot.commands self
    /\ bot.handle_event c event (bot.shared_box self) = bot.Raised e
    /\ bot.pass_event_trough_commands self event order
       = (if bot.derives_Exception e then bot.Returns [bot.print_exc e]
          else bot.Propagates e).
Proof.
  intros Hperm (c & e & Hc & He).
  unfold bot.pass_event_trough_commands.
  set (tasks := map _ (bot.commands self)).
  assert (Hlen : length tasks = length (bot.commands self))
    by (unfold tasks; apply length_map).
  destruct (gather_raises tasks order) as (j & e' & Hj & Hg).
  - by rewrite Hlen.
  - apply list_elem_of_lookup in Hc as [i Hi].
    exists i, e. unfold tasks.
    change (map ?f ?l) with (f <$> l) at 1.
    rewrite list_lookup_fmap, Hi. simpl. by rewrite He.
  - apply tasks_lookup in Hj as (c' & Hc' & He').
    exists c', e'. rewrite Hg. by repeat split.
Qed.

Lemma dispatch_failure_never_delivers_witness :
  exists c e, c ∈ [command_hi; command_cancelled]
    /\ bot.handle_event c tt tt = bot.Raised e
    /\ bot.pass_event_trough_commands
         (bot_with [command_hi; command_cancelled]) tt [1; 0]%nat
       = (if bot.derives_Exception e then bot.Returns [bot.print_exc e]
          else bot.Propagates e).
Proof.
  apply (dispatch_failure_never_delivers
           (bot_with [command_hi; command_cancelled]) tt [1; 0]%nat).
  - apply perm_swap.
  - exists command_cancelled, CancelledError_stop. split; [| reflexivity].
    simpl. rewrite !elem_of_cons. tauto.
Defined.

(** ** [List.cut_part], continued *)

Section List_results.
Variable self : list_.List.

Lemma is_unmatched_true (v : value) :
  is_unmatched v = true -> v = UnmatchedArgument.
Proof. by destruct v. Qed.

(** What a list result of the loop looks like. *)
Lemma loop_list_result (fuel : nat) (values vs : list value) (s r : str) :
  list_.loop self fuel values s = Some (VList vs, r) ->
  (exists more, vs = values ++ more)
  /\ ((Z.of_nat (length vs) > list_.min_length self)%Z
      \/ list_.under_max self vs = false)
  /\ forall n, list_.max_length self = list_.Int n ->
       (Z.of_nat (length values) <= Z.max 0 n)%Z ->
       (Z.of_nat (length vs) <= Z.max 0 n)%Z.
Proof.
  revert values s. induction fuel as [| fuel IH]; intros values s; [done |].
  cbn [list_.loop].
  destruct (list_.under_max self values) eqn:Hmax.
  - destruct (text_argument.cut_part (list_.element self) (lstrip s))
      as [chunk rest].
    destruct (is_unmatched chunk) eqn:Hchunk.
    + apply is_unmatched_true in Hchunk as ->.
      destruct (Z.of_nat (length values) >? list_.min_length self)%Z eqn:Hmin;
        [| done].
      intros [= <- <-]. split; [exists []; by rewrite app_nil_r |].
      split; [left; by apply Z.gtb_gt | done].
    + intros H. apply IH in H as ((more & ->) & Hor & Hbound).
      split; [exists (chunk :: more); by rewrite <- app_assoc |].
      split; [exact Hor |].
      intros n Hn Hlen. apply (Hbound n Hn).
      unfold list_.under_max in Hmax. rewrite Hn in Hmax.
      apply Z.ltb_lt in Hmax. rewrite length_app. cbn [length]. lia.
  - intros [= <- <-]. split; [exists []; by rewrite app_nil_r |].
    split; [by right | done].
Qed.

Lemma loop_never_ends (fuel : nat) (values : list value) (s : str) :
  list_.max_length self = list_.Ellipsis ->
  (forall s', is_unmatched (text_argument.cut_part (list_.element self) s').1
              = false) ->
  list_.loop self fuel values s = None.
Proof.
  intros Hmax Hacc. revert values s.
  induction fuel as [| fuel IH]; intros values s; [done |].
  cbn [list_.loop]. unfold list_.under_max. rewrite Hmax.
  specialize (Hacc (lstrip s)).
  destruct (text_argument.cut_part (list_.element self) (lstrip s))
    as [chunk rest].
  cbn in Hacc. rewrite Hacc. apply IH.
Qed.
End List_results.

(** X13: when the element fails after more than [min_length] accepted
    elements, before the maximum is reached, [cut_part] returns the list of
    the accepted values together with the remainder that the element
    reported for its failed attempt. *)
Theorem List_cut_part_above_min_matched
    (self : list_.List) (fuel : nat) (vs : list value) (s s' r : str) :
  list_.accepts (list_.element self) s vs s' ->
  text_argument.cut_part (list_.element self) (lstrip s')
  = (UnmatchedArgument, r) ->
  (Z.of_nat (length vs) > list_.min_length self)%Z ->
  list_.under_max self vs = true ->
  (length vs < fuel)%nat ->
  list_.cut_part self fuel s = Some (VList vs, r).
Proof.
  intros Hacc Hfail Hmin Hmax Hfuel.
  rewrite (cut_part_element_fails self fuel vs s s' r Hacc Hfail Hmax Hfuel).
  by apply Z.gtb_gt in Hmin as ->.
Qed.

Lemma List_cut_part_above_min_matched_witness :
  list_.cut_part (List_of_Bool 1 (list_.Int 5)) 3 (u "yes no maybe")
  = Some (VList [VBool true; VBool false], u "maybe").
Proof.
  apply (List_cut_part_above_min_matched
           (List_of_Bool 1 (list_.Int 5)) 3 [VBool true; VBool false]
           (u "yes no maybe") (u " maybe") (u "maybe")).
  - apply (list_.accepts_cons _ _ (VBool true) (u " no maybe"));
      [vm_compute; reflexivity | reflexivity |].
    apply (list_.accepts_cons _ _ (VBool false) (u " maybe"));
      [vm_compute; reflexivity | reflexivity | apply list_.accepts_nil].
  - vm_compute. reflexivity.
  - reflexivity.
  - reflexivity.
  - simpl. lia.
Defined.

(** X14: when [max_length] elements have been accepted the loop stops
    without trying the element again: the result is the list of these
    values, and the remainder is the text after the last of them, with its
    leading white space kept. *)
Theorem List_cut_part_stops_at_max
    (self : list_.List) (fuel : nat) (vs : list value) (s s' : str) :
  list_.accepts (list_.element self) s vs s' ->
  list_.max_length self = list_.Int (Z.of_nat (length vs)) ->
  (length vs < fuel)%nat ->
  list_.cut_part self fuel s = Some (VList vs, s').
Proof. apply cut_part_max_reached. Qed.

Lemma List_cut_part_stops_at_max_witness :
  list_.cut_part (List_of_Bool 1 (list_.Int 2)) 3 (u "yes no  yes")
  = Some (VList [VBool true; VBool false], u "  yes").
Proof.
  apply (List_cut_part_stops_at_max
           (List_of_Bool 1 (list_.Int 2)) 3 [VBool true; VBool false]
           (u "yes no  yes") (u "  yes")).
  - apply (list_.accepts_cons _ _ (VBool true) (u " no  yes"));
      [vm_compute; reflexivity | reflexivity |].
    apply (list_.accepts_cons _ _ (VBool false) (u "  yes"));
      [vm_compute; reflexivity | reflexivity | apply list_.accepts_nil].
  - reflexivity.
  - simpl. lia.
Defined.

(** X15: with a [max_length] of zero or less the element is never tried:
    [cut_part] returns the empty list and the input as it was given, for
    every input and every [min_length]. *)
Theorem List_cut_part_nonpositive_max
    (self : list_.List) (fuel : nat) (n : Z) (s : str) :
  list_.max_length self = list_.Int n ->
  (n <= 0)%Z ->
  list_.cut_part self (S fuel) s = Some (VList [], s).
Proof.
  intros Hmax Hn. unfold list_.cut_part. cbn [list_.loop].
  unfold list_.under_max. rewrite Hmax. cbn [length].
  replace (Z.of_nat 0 <? n)%Z with false; [reflexivity |].
  symmetry. apply Z.ltb_ge. lia.
Qed.

Lemma List_cut_part_nonpositive_max_witness :
  list_.cut_part (List_of_Bool 3 (list_.Int 0)) 1 (u " yes") 
  = Some (VList [], u " yes").
Proof.
  apply (List_cut_part_nonpositive_max (List_of_Bool 3 (list_.Int 0)) 0 0%Z).
  - reflexivity.
  - lia.
Defined.

(** X16: a list returned by [cut_part] never has more than [max_length]
    values (none when [max_length] is negative). *)
Theorem List_cut_part_never_exceeds_max
    (self : list_.List) (fuel : nat) (n : Z) (vs : list value) (s r : str) :
  list_.max_length self = list_.Int n ->
  list_.cut_part self fuel s = Some (VList vs, r) ->
  (Z.of_nat (length vs) <= Z.max 0 n)%Z.
Proof.
  intros Hmax Hres. unfold list_.cut_part in Hres.
  apply loop_list_result in Hres as (_ & _ & Hbound).
  apply (Hbound n Hmax). cbn [length]. lia.
Qed.

Lemma List_cut_part_never_exceeds_max_witness :
  (Z.of_nat (length [VBool true; VBool false]) <= Z.max 0 2)%Z.
Proof.
  apply (List_cut_part_never_exceeds_max
           (List_of_Bool 1 (list_.Int 2)) 3 2%Z [VBool true; VBool false]
           (u "yes no  yes") (u "  yes")).
  - reflexivity.
  - vm_compute. reflexivity.
Defined.

(** X17: a list returned by [cut_part] has more than [min_length] values,
    unless the loop ended because the maximum was reached. *)
Theorem List_cut_part_list_above_min_or_at_max
    (self : list_.List) (fuel : nat) (vs : list value) (s r : str) :
  list_.cut_part self fuel s = Some (VList vs, r) ->
  (Z.of_nat (length vs) > list_.min_length self)%Z
  \/ list_.under_max self vs = false.
Proof.
  intros Hres. unfold list_.cut_part in Hres.
  by apply loop_list_result in Hres as (_ & Hor & _).
Qed.

Lemma List_cut_part_list_above_min_or_at_max_witness :
  (Z.of_nat (length [VBool true; VBool false]) > 1)%Z
  \/ list_.under_max (List_of_Bool 1 (list_.Int 5)) [VBool true; VBool false]
     = false.
Proof.
  apply (List_cut_part_list_above_min_or_at_max
           (List_of_Bool 1 (list_.Int 5)) 3 [VBool true; VBool false]
           (u "yes no maybe") (u "maybe")).
  vm_compute. reflexivity.
Defined.

(** X18: with an unbounded [max_length] and an element that accepts on
    every text, the loop of [cut_part] never ends: no number of iterations
    gives a result. *)
Theorem List_cut_part_never_returns
    (self : list_.List) (fuel : nat) (s : str) :
  list_.max_length self = list_.Ellipsis ->
  (forall s', is_unmatched (text_argument.cut_part (list_.element self) s').1
              = false) ->
  list_.cut_part self fuel s = None.
Proof. intros Hmax Hacc. by apply loop_never_ends. Qed.

Lemma List_cut_part_never_returns_witness :
  list_.cut_part
    {| list_.element := Empty_argument; list_.min_length := 1;
       list_.max_length := list_.Ellipsis |} 1000 (u "abc") = None.
Proof.
  apply (List_cut_part_never_returns
           {| list_.element := Empty_argument; list_.min_length := 1;
              list_.max_length := list_.Ellipsis |} 1000 (u "abc")).
  - reflexivity.
  - intros s'. reflexivity.
Defined.

(** ** [Integer.cut_part], continued *)

Lemma star_digit_greedy (ds rest : str) (fuel : nat) :
  Forall (fun c => isdigit c = true) ds ->
  no_leading_digit rest ->
  (length ds <= fuel)%nat ->
  exists l, star_ends (one isdigit) fuel (ds ++ rest) = rest :: l.
Proof.
  intros Hds Hrest. revert fuel.
  induction Hds as [| d ds Hd Hds IH]; intros fuel Hfuel.
  - cbn [app]. destruct fuel as [| fuel]; [by exists [] |].
    cbn [star_ends]. destruct rest as [| c rest]; [by exists [] |].
    cbn in Hrest. cbn [one]. rewrite Hrest. by exists [].
  - destruct fuel as [| fuel]; [cbn in Hfuel; lia |].
    cbn [app star_ends one]. rewrite Hd. cbn [flat_map].
    replace (length (ds ++ rest) <? length (d :: ds ++ rest))%nat with true
      by (symmetry; apply Nat.ltb_lt; cbn; lia).
    destruct (IH fuel) as [l Hl]; [cbn in Hfuel; lia |].
    rewrite Hl. by eexists.
Qed.

Lemma star_Digit_greedy (fl : flags) (ds rest : str) (fuel : nat) :
  Forall (fun c => isdigit c = true) ds ->
  no_leading_digit rest ->
  (length ds <= fuel)%nat ->
  exists l, star_ends (ends fl Digit) fuel (ds ++ rest) = rest :: l.
Proof. exact (star_digit_greedy ds rest fuel). Qed.

Lemma ends_Seq (fl : flags) (r1 r2 : regex) (s : str) :
  ends fl (Seq r1 r2) s = flat_map (ends fl r2) (ends fl r1 s).
Proof. reflexivity. Qed.

Lemma ends_Star (fl : flags) (r : regex) (s : str) :
  ends fl (Star r) s = star_ends (ends fl r) (length s) s.
Proof. reflexivity. Qed.

Lemma ends_Opt (fl : flags) (r : regex) (s : str) :
  ends fl (Opt r) s = ends fl r s ++ [s].
Proof. reflexivity. Qed.

Lemma ends_Digit (fl : flags) (d : N) (s : str) :
  isdigit d = true -> ends fl Digit (d :: s) = [s].
Proof. intros Hd. cbn [ends one]. by rewrite Hd. Qed.

Lemma fraction_ends (ds1 ds2 rest : str) (d : N) :
  Forall (fun c => isdigit c = true) ds1 ->
  Forall (fun c => isdigit c = true) (d :: ds2) ->
  no_leading_digit rest ->
  exists l,
    ends float_.no_flags (Seq (Star Digit) (Seq (Chr 46) (Plus Digit)))
      (ds1 ++ 46 :: d :: ds2 ++ rest)
    = rest :: l.
Proof.
  intros H1 H2 Hrest. rewrite ends_Seq, ends_Star.
  destruct (star_Digit_greedy float_.no_flags ds1 (46 :: d :: ds2 ++ rest)
              (length (ds1 ++ 46 :: d :: ds2 ++ rest))) as [l1 Hl1];
    [exact H1 | reflexivity | rewrite length_app; lia |].
  rewrite Hl1. cbn [flat_map]. rewrite ends_Seq.
  assert (ends float_.no_flags (Chr 46) (46 :: d :: ds2 ++ rest)
          = [d :: ds2 ++ rest]) as -> by reflexivity.
  cbn [flat_map]. rewrite ends_Plus.
  inversion H2 as [| ? ? Hd Hds2]; subst.
  rewrite (ends_Digit _ _ _ Hd). cbn [flat_map].
  destruct (star_Digit_greedy float_.no_flags ds2 rest (length (ds2 ++ rest)))
    as [l2 Hl2];
    [exact Hds2 | exact Hrest | rewrite length_app; lia |].
  rewrite Hl2. cbn [app]. by eexists.
Qed.

Lemma take_drop_prefix (a rest : str) :
  take (length (a ++ rest) - length rest) (a ++ rest) = a
  /\ drop (length (a ++ rest) - length rest) (a ++ rest) = rest.
Proof.
  replace (length (a ++ rest) - length rest)%nat with (length a)
    by (rewrite length_app; lia).
  by rewrite take_app_length, drop_app_length.
Qed.

(** The pattern on a sign, digits, the point, digits and a text that
    does not go on with a digit. *)
Lemma pattern_fraction_match (sign ds1 ds2 rest : str) (d : N) :
  sign = [] \/ sign = [43] \/ sign = [45] \/ sign = [124] ->
  Forall (fun c => isdigit c = true) ds1 ->
  Forall (fun c => isdigit c = true) (d :: ds2) ->
  no_leading_digit rest ->
  float_.cut_part (sign ++ ds1 ++ 46 :: d :: ds2 ++ rest)
  = Matched {| parsed_part := sign ++ ds1 ++ 46 :: d :: ds2;
               new_arguments_string := rest |}.
Proof.
  intros Hsign H1 H2 Hrest.
  destruct (fraction_ends ds1 ds2 rest d H1 H2 Hrest) as [l Hl].
  assert (exists l',
             ends (pflags float_._pattern) (pattern float_._pattern)
               (sign ++ ds1 ++ 46 :: d :: ds2 ++ rest) = rest :: l')
    as [l' Hl'].
  { cbn [float_._pattern pattern pflags]. rewrite ends_Seq, ends_Opt.
    destruct Hsign as [-> | Hsign].
    - cbn [app].
      assert (ends float_.no_flags (OneOf (u "+|-"))
                (ds1 ++ 46 :: d :: ds2 ++ rest) = []) as ->.
      { destruct ds1 as [| c ds1]; cbn [app ends one].
        - reflexivity.
        - inversion H1; subst. by rewrite sign_class_digit. }
      cbn [app flat_map]. rewrite Hl. by eexists.
    - assert (exists c, sign = [c]
                /\ existsb (fun x => chr_eq float_.no_flags x c) (u "+|-") = true)
        as (c & -> & Hc).
      { destruct Hsign as [-> | [-> | ->]]; eexists; split; reflexivity. }
      cbn [app]. 
      assert (ends float_.no_flags (OneOf (u "+|-"))
                (c :: ds1 ++ 46 :: d :: ds2 ++ rest)
              = [ds1 ++ 46 :: d :: ds2 ++ rest]) as ->.
      { cbn [ends one]. by rewrite Hc. }
      cbn [app flat_map]. rewrite Hl. by eexists. }
  unfold float_.cut_part, cut_part_via_regex, re_match. rewrite Hl'.
  unfold group0. cbn [m_end m_string].
  assert (sign ++ ds1 ++ 46 :: d :: ds2 ++ rest
          = (sign ++ ds1 ++ 46 :: d :: ds2) ++ rest) as ->
    by (by rewrite <- !app_assoc).
  destruct (take_drop_prefix (sign ++ ds1 ++ 46 :: d :: ds2) rest) as [Ht Hd].
  by rewrite Ht, Hd.
Qed.

(** X19: a number with a fractional part is cut off whole: after an
    optional sign character (one of [+], [-] and also [|], which the
    character class of the pattern contains) the digits [0]..[9] before the
    point (possibly none), the point and all the digits after it are the
    parsed part, and the text after them is the remainder.  The character
    after the number, if there is one, is an ASCII character that is not a
    digit ([\d] also accepts the decimal digits of other scripts, which
    the table [isdigit] does not list). *)
Theorem Integer_cut_part_fraction (sign ds1 ds2 rest : str) (d : N) :
  sign = [] \/ sign = [43] \/ sign = [45] \/ sign = [124] ->
  Forall (fun c => isdigit c = true) ds1 ->
  Forall (fun c => isdigit c = true) (d :: ds2) ->
  match rest with
  | [] => True
  | c :: _ => c < 128 /\ isdigit c = false
  end ->
  float_.cut_part (sign ++ ds1 ++ 46 :: d :: ds2 ++ rest)
  = Matched {| parsed_part := sign ++ ds1 ++ 46 :: d :: ds2;
               new_arguments_string := rest |}.
Proof.
  intros Hsign H1 H2 Hrest.
  apply pattern_fraction_match; [exact Hsign | exact H1 | exact H2 |].
  destruct rest as [| c rest]; [exact I | exact (proj2 Hrest)].
Qed.

Lemma Integer_cut_part_fraction_witness :
  float_.cut_part (u "-12.50 kg")
  = Matched {| parsed_part := u "-12.50"; new_arguments_string := u " kg" |}
  /\ float_.cut_part (u "|.5")
     = Matched {| parsed_part := u "|.5"; new_arguments_string := [] |}.
Proof.
  split.
  - apply (Integer_cut_part_fraction [45] [49; 50] [48] (u " kg") 53).
    + tauto.
    + repeat constructor.
    + repeat constructor.
    + split; reflexivity.
  - apply (Integer_cut_part_fraction [124] [] [] [] 53).
    + tauto.
    + constructor.
    + repeat constructor.
    + exact I.
Defined.

(** C9, as stated, fails: the text form of the finite float [1e16] is
    "1e+16", which the pattern does not match, and of the text form
    "1.5e+300" only "1.5" is matched, with "e+300" left over. *)
Lemma Integer_exponent_text_not_consumed :
  float_.cut_part (u "1e+16") = Unmatched
  /\ float_.cut_part (u "1.5e+300")
     = Matched {| parsed_part := u "1.5"; new_arguments_string := u "e+300" |}
  /\ u "1.5" <> u "1.5e+300".
Proof. repeat split; vm_compute; (reflexivity || discriminate). Qed.

(** C9, amended: for a text form in positional notation (an optional
    minus sign, at least one digit, the point, at least one digit; no
    exponent) [cut_part] matches the whole text and leaves nothing, and
    [cast_to_type] on the matched text is [float] of the text form
    itself. *)
Theorem Integer_roundtrip_positional_text {Float CommandContext : Type}
    (float : str -> option Float) (ctx : CommandContext)
    (minus : bool) (d1 d2 : N) (ds1 ds2 : str) :
  Forall (fun c => isdigit c = true) (d1 :: ds1) ->
  Forall (fun c => isdigit c = true) (d2 :: ds2) ->
  exists r,
    float_.cut_part (positional_text minus (d1 :: ds1) (d2 :: ds2)) = Matched r
    /\ parsed_part r = positional_text minus (d1 :: ds1) (d2 :: ds2)
    /\ new_arguments_string r = []
    /\ float_cast.cast_to_type float ctx (parsed_part r)
       = float (positional_text minus (d1 :: ds1) (d2 :: ds2)).
Proof.
  intros H1 H2. unfold positional_text.
  pose proof (pattern_fraction_match (if minus then [45] else []) (d1 :: ds1)
                ds2 [] d2) as Hm.
  rewrite !app_nil_r in Hm.
  eexists. split; [apply Hm |].
  - destruct minus; tauto.
  - exact H1.
  - exact H2.
  - exact I.
  - repeat split.
Qed.

Lemma Integer_roundtrip_positional_text_witness :
  exists r,
    float_.cut_part (u "-12.5") = Matched r
    /\ parsed_part r = u "-12.5"
    /\ new_arguments_string r = []
    /\ float_cast.cast_to_type (fun s : str => Some s) tt (parsed_part r)
       = Some (u "-12.5").
Proof.
  apply (Integer_roundtrip_positional_text (fun s : str => Some s) tt
           true 49 53 [50] []).
  - repeat constructor.
  - repeat constructor.
Defined.

(** ** [Bool.cut_part], continued *)


(** The pattern of one alias matches exactly the texts that begin with
    the alias, up to letter case. *)
Lemma fragment_ends_bounded (n : nat) (alias : str) (r : regex) (s : str) :
  (length alias <= n)%nat ->
  bool_.fragment alias = Some r ->
  ends ignorecase_flags r s
  = if starts_with_ci (alias_literal alias) s
    then [drop (length (alias_literal alias)) s] else [].
Proof.
  revert alias r s. induction n as [| n IH]; intros alias r s Hn Hr.
  - destruct alias; [| cbn in Hn; lia]. cbn in Hr. by injection Hr as <-.
  - destruct alias as [| c rest]; [cbn in Hr; by injection Hr as <- |].
    cbn [bool_.fragment alias_literal] in *.
    destruct (c =? 92).
    + destruct rest as [| d rest']; [done |].
      destruct (bool_.is_meta d); [| done].
      destruct (bool_.fragment rest') as [r' |] eqn:Hr'; [| done].
      cbn in Hr. injection Hr as <-.
      rewrite ends_Seq. destruct s as [| x s']; [reflexivity |].
      assert (ends ignorecase_flags (Chr d) (x :: s')
              = if lower d =? lower x then [s'] else []) as -> by reflexivity.
      cbn [starts_with_ci length drop].
      destruct (lower d =? lower x); cbn [flat_map andb]; [| reflexivity].
      rewrite app_nil_r.
      apply IH; [cbn in Hn; lia | exact Hr'].
    + destruct (bool_.is_meta c); [done |].
      destruct (bool_.fragment rest) as [r' |] eqn:Hr'; [| done].
      cbn in Hr. injection Hr as <-.
      rewrite ends_Seq. destruct s as [| x s']; [reflexivity |].
      assert (ends ignorecase_flags (Chr c) (x :: s')
              = if lower c =? lower x then [s'] else []) as -> by reflexivity.
      cbn [starts_with_ci length drop].
      destruct (lower c =? lower x); cbn [flat_map andb]; [| reflexivity].
      rewrite app_nil_r.
      apply IH; [cbn in Hn; lia | exact Hr'].
Qed.

Lemma alternation_ends (rs : list regex) (s : str) :
  rs <> [] ->
  ends ignorecase_flags (bool_.alternation rs) s
  = flat_map (fun r => ends ignorecase_flags r s) rs.
Proof.
  induction rs as [| r rs IH]; [done |]. intros _.
  destruct rs as [| r2 rs].
  - cbn. by rewrite app_nil_r.
  - change (bool_.alternation (r :: r2 :: rs))
      with (Alt r (bool_.alternation (r2 :: rs))).
    cbn [ends flat_map]. by rewrite IH.
Qed.

Lemma starts_with_ci_length (p s : str) :
  starts_with_ci p s = true -> (length p <= length s)%nat.
Proof.
  revert s. induction p as [| c p IH]; intros s; [cbn; lia |].
  destruct s as [| x s]; [done |]. cbn.
  intros [_ H]%andb_true_iff. apply IH in H. lia.
Qed.

(** The compiled alternation matches with the first alias, in list order,
    that is a prefix of the text up to letter case. *)
Lemma compile_values_match (values : list str) (p : Pattern) (s : str) :
  values <> [] ->
  bool_.compile_values values = Some p ->
  re_match p s
  = (fun alias => {| m_string := s; m_end := length (alias_literal alias) |})
      <$> first_alias values s.
Proof.
  intros Hne Hp. unfold bool_.compile_values in Hp.
  destruct (mapM bool_.fragment values) as [rs |] eqn:Hrs; [| done].
  cbn in Hp. injection Hp as <-.
  apply mapM_Some in Hrs.
  unfold re_match. cbn [pattern pflags]. fold ignorecase_flags.
  rewrite alternation_ends
    by (intros ->; apply Forall2_nil_inv_r in Hrs; done).
  clear Hne. unfold first_alias.
  induction Hrs as [| alias r values rs Hr Hrs IH]; [reflexivity |].
  cbn [flat_map List.find].
  rewrite (fragment_ends_bounded (length alias) alias r s (le_n _) Hr).
  destruct (starts_with_ci (alias_literal alias) s) eqn:Hstart.
  - cbn. do 2 f_equal. apply starts_with_ci_length in Hstart.
    rewrite length_drop. lia.
  - exact IH.
Qed.

Lemma true_values_app_nonempty (extension : list str) :
  bool_.true_values ++ extension <> [].
Proof. unfold bool_.true_values. cbn [app]. discriminate. Qed.

Lemma false_values_app_nonempty (extension : list str) :
  bool_.false_values ++ extension <> [].
Proof. unfold bool_.false_values. cbn [app]. discriminate. Qed.

(** [cut_part] in terms of the aliases, with the characters compared
    through the table [lower]. *)
Lemma first_alias_decides_cut_part
    (true_extension false_extension : list str) (self : bool_.Bool) (s : str) :
  bool_.__init__ true_extension false_extension = Some self ->
  bool_.cut_part cut_part_lite self s
  = match first_alias (bool_.true_values ++ true_extension) s with
    | Some alias => (VBool true, drop (length (alias_literal alias)) s)
    | None =>
      match first_alias (bool_.false_values ++ false_extension) s with
      | Some alias => (VBool false, drop (length (alias_literal alias)) s)
      | None => (UnmatchedArgument, s)
      end
    end.
Proof.
  unfold bool_.__init__. intros Hinit.
  destruct (bool_.compile_values (bool_.true_values ++ true_extension))
    as [t |] eqn:Ht; [| done].
  destruct (bool_.compile_values (bool_.false_values ++ false_extension))
    as [f |] eqn:Hf; [| done].
  cbn in Hinit. injection Hinit as <-.
  unfold bool_.cut_part, cut_part_lite. cbn [bool_.true_regex bool_.false_regex].
  rewrite (compile_values_match _ t s (true_values_app_nonempty _) Ht).
  rewrite (compile_values_match _ f s (false_values_app_nonempty _) Hf).
  destruct (first_alias (bool_.true_values ++ true_extension) s); [reflexivity |].
  destruct (first_alias (bool_.false_values ++ false_extension) s); reflexivity.
Qed.

Lemma starts_with_ci_lower (p s s' : str) :
  map lower s = map lower s' ->
  starts_with_ci p s = starts_with_ci p s'.
Proof.
  revert s s'. induction p as [| c p IH]; intros s s' Heq; [reflexivity |].
  destruct s as [| x s], s' as [| x' s']; try done.
  cbn in Heq. injection Heq as Hx Hs. cbn. by rewrite Hx, (IH s s' Hs).
Qed.

Lemma starts_with_ci_same (p s : str) :
  map lower s = map lower p -> starts_with_ci p s = true.
Proof.
  revert s. induction p as [| c p IH]; intros s Heq; [reflexivity |].
  destruct s as [| x s]; [done |]. cbn in Heq. injection Heq as Hx Hs.
  cbn. by rewrite Hx, N.eqb_refl, (IH s Hs).
Qed.

Lemma first_alias_lower (values : list str) (s s' : str) :
  map lower s = map lower s' ->
  first_alias values s = first_alias values s'.
Proof.
  intros Heq. unfold first_alias.
  induction values as [| a values IH]; [reflexivity |].
  cbn [List.find]. rewrite (starts_with_ci_lower _ s s' Heq).
  by destruct (starts_with_ci (alias_literal a) s').
Qed.

Lemma first_alias_skip (front back : list str) (alias : str) (s : str) :
  Forall (fun a => starts_with_ci (alias_literal a) s = false) front ->
  starts_with_ci (alias_literal alias) s = true ->
  first_alias (front ++ alias :: back) s = Some alias.
Proof.
  intros Hfront Halias. unfold first_alias.
  induction Hfront as [| a front Ha Hfront IH]; cbn [app List.find].
  - by rewrite Halias.
  - by rewrite Ha.
Qed.

Lemma first_alias_empty_input (values : list str) :
  Forall (fun a => alias_literal a <> []) values ->
  first_alias values [] = None.
Proof.
  intros H. unfold first_alias.
  induction H as [| a values Ha H IH]; [reflexivity |].
  cbn [List.find]. destruct (alias_literal a); [done | exact IH].
Qed.

(** X20: for a [Bool] built from aliases that are plain words, and an
    input, all made of Basic Latin characters and Cyrillic letters
    U+0400..U+045F, [cut_part] is decided by the first alias, in the order
    built-in true aliases, [true_extension], then built-in false aliases,
    [false_extension], that is a prefix of the input up to letter case: the
    value is [True] or [False] according to that alias's list and the
    remainder is the input without as many characters as the alias has;
    when no alias is such a prefix the result is [UnmatchedArgument] with
    the input unchanged.  Outside these characters [re.IGNORECASE] equates
    more characters than the table [lower] does. *)
Theorem Bool_cut_part_first_alias
    (true_extension false_extension : list str) (self : bool_.Bool) (s : str) :
  bool_.__init__ true_extension false_extension = Some self ->
  Forall case_table_text (true_extension ++ false_extension) ->
  case_table_text s ->
  bool_.cut_part cut_part_lite self s
  = match first_alias (bool_.true_values ++ true_extension) s with
    | Some alias => (VBool true, drop (length (alias_literal alias)) s)
    | None =>
      match first_alias (bool_.false_values ++ false_extension) s with
      | Some alias => (VBool false, drop (length (alias_literal alias)) s)
      | None => (UnmatchedArgument, s)
      end
    end.
Proof. intros Hinit _ _. by apply first_alias_decides_cut_part. Qed.

Lemma Bool_cut_part_first_alias_witness :
  bool_.cut_part cut_part_lite Bool_extended (u "Yeah")
  = match first_alias (bool_.true_values ++ [u "yeah"]) (u "Yeah") with
    | Some alias => (VBool true, drop (length (alias_literal alias)) (u "Yeah"))
    | None =>
      match first_alias (bool_.false_values ++ [u "turn off"]) (u "Yeah") with
      | Some alias =>
        (VBool false, drop (length (alias_literal alias)) (u "Yeah"))
      | None => (UnmatchedArgument, u "Yeah")
      end
    end.
Proof.
  apply (Bool_cut_part_first_alias [u "yeah"] [u "turn off"] Bool_extended
           (u "Yeah")).
  - vm_compute. reflexivity.
  - vm_compute. repeat constructor.
  - vm_compute. repeat constructor.
Defined.

(** X21: the empty input is not matched, by any [Bool] whose extension
    aliases are plain words and not empty. *)
Theorem Bool_cut_part_empty_input
    (true_extension false_extension : list str) (self : bool_.Bool) :
  bool_.__init__ true_extension false_extension = Some self ->
  Forall (fun a => alias_literal a <> []) (true_extension ++ false_extension) ->
  bool_.cut_part cut_part_lite self [] = (UnmatchedArgument, []).
Proof.
  intros Hinit [Ht Hf]%Forall_app.
  rewrite (first_alias_decides_cut_part _ _ _ _ Hinit).
  rewrite !first_alias_empty_input; [reflexivity | |].
  - apply Forall_app. split; [| exact Hf].
    unfold bool_.false_values. repeat constructor; discriminate.
  - apply Forall_app. split; [| exact Ht].
    unfold bool_.true_values. repeat constructor; discriminate.
Qed.

Lemma Bool_cut_part_empty_input_witness :
  bool_.cut_part cut_part_lite Bool_extended [] = (UnmatchedArgument, []).
Proof.
  apply (Bool_cut_part_empty_input [u "yeah"] [u "turn off"] Bool_extended).
  - vm_compute. reflexivity.
  - repeat constructor; discriminate.
Defined.

(** X22: for aliases that are plain words and inputs, all made of Basic
    Latin characters and Cyrillic letters U+0400..U+045F, the result of
    [cut_part] does not depend on the letter case of the input: two such
    inputs that are equal after lower-casing give the same value and
    consume the same number of characters. *)
Theorem Bool_cut_part_ignores_case
    (true_extension false_extension : list str) (self : bool_.Bool)
    (s s' : str) :
  bool_.__init__ true_extension false_extension = Some self ->
  Forall case_table_text (true_extension ++ false_extension) ->
  case_table_text s ->
  case_table_text s' ->
  map lower s = map lower s' ->
  (bool_.cut_part cut_part_lite self s).1
  = (bool_.cut_part cut_part_lite self s').1
  /\ length (bool_.cut_part cut_part_lite self s).2
     = length (bool_.cut_part cut_part_lite self s').2.
Proof.
  intros Hinit _ _ _ Heq.
  rewrite !(first_alias_decides_cut_part _ _ _ _ Hinit).
  rewrite !(first_alias_lower _ s s' Heq).
  assert (Hlen : length s = length s').
  { apply (f_equal length) in Heq. by rewrite !length_map in Heq. }
  destruct (first_alias (bool_.true_values ++ true_extension) s');
    [cbn; by rewrite !length_drop, Hlen |].
  destruct (first_alias (bool_.false_values ++ false_extension) s');
    cbn; by rewrite ?length_drop, Hlen.
Qed.

Lemma Bool_cut_part_ignores_case_witness :
  (bool_.cut_part cut_part_lite Bool_default (u "НЕТ, спасибо")).1
  = (bool_.cut_part cut_part_lite Bool_default (u "нет, Спасибо")).1
  /\ length (bool_.cut_part cut_part_lite Bool_default (u "НЕТ, спасибо")).2
     = length (bool_.cut_part cut_part_lite Bool_default (u "нет, Спасибо")).2.
Proof.
  apply (Bool_cut_part_ignores_case [] [] Bool_default).
  - vm_compute. reflexivity.
  - constructor.
  - vm_compute. repeat constructor.
  - vm_compute. repeat constructor.
  - vm_compute. reflexivity.
Defined.

(** X23: for aliases that are plain words and an input, all made of
    Basic Latin characters and Cyrillic letters U+0400..U+045F: an alias is
    cut off whole, in any letter case, when no alias that is tried before
    it is a prefix of it: the input that consists of the alias alone then
    gives the value of the alias's list and an empty remainder.  For a
    false alias the aliases tried before it include all the true
    aliases. *)
Theorem Bool_cut_part_unshadowed_alias
    (true_extension false_extension : list str) (self : bool_.Bool)
    (value : bool) (front back : list str) (alias s : str) :
  bool_.__init__ true_extension false_extension = Some self ->
  Forall case_table_text (true_extension ++ false_extension) ->
  case_table_text s ->
  (if value then bool_.true_values ++ true_extension
   else bool_.false_values ++ false_extension) = front ++ alias :: back ->
  Forall (fun a => starts_with_ci (alias_literal a) s = false)
    ((if value then [] else bool_.true_values ++ true_extension) ++ front) ->
  map lower s = map lower (alias_literal alias) ->
  bool_.cut_part cut_part_lite self s = (VBool value, []).
Proof.
  intros Hinit _ _ Hsplit [Htrue Hfront]%Forall_app Hs.
  rewrite (first_alias_decides_cut_part _ _ _ _ Hinit).
  assert (Hfound : first_alias (front ++ alias :: back) s = Some alias)
    by (apply first_alias_skip; [exact Hfront | by apply starts_with_ci_same]).
  assert (Hdrop : drop (length (alias_literal alias)) s = []).
  { apply drop_ge. apply (f_equal length) in Hs.
    rewrite !length_map in Hs. lia. }
  destruct value.
  - by rewrite Hsplit, Hfound, Hdrop.
  - assert (first_alias (bool_.true_values ++ true_extension) s = None) as ->.
    { unfold first_alias. clear -Htrue.
      induction Htrue as [| a l Ha _ IH]; [reflexivity |].
      cbn [List.find]. by rewrite Ha. }
    by rewrite Hsplit, Hfound, Hdrop.
Qed.

Lemma Bool_cut_part_unshadowed_alias_witness :
  bool_.cut_part cut_part_lite Bool_overlapping (u "OK") = (VBool true, []).
Proof.
  apply (Bool_cut_part_unshadowed_alias [u "ok"] [u "ok"] Bool_overlapping
           true bool_.true_values [] (u "ok") (u "OK")).
  - vm_compute. reflexivity.
  - vm_compute. repeat constructor.
  - vm_compute. repeat constructor.
  - reflexivity.
  - vm_compute. repeat constructor.
  - vm_compute. reflexivity.
Defined.

(** ** [_HandlerMarker] *)

Lemma mark_all_commands {Event SharedBox HandlingStatus : Type}
    (self : bot.Bot Event SharedBox HandlingStatus)
    (cs : list (bot.Command Event SharedBox HandlingStatus)) :
  bot.commands (handler_marker.mark_all self cs) = bot.commands self ++ cs
  /\ bot.shared_box (handler_marker.mark_all self cs) = bot.shared_box self
  /\ bot.release (handler_marker.mark_all self cs) = bot.release self
  /\ bot.debug_filter (handler_marker.mark_all self cs) = bot.debug_filter self.
Proof.
  unfold handler_marker.mark_all. revert self.
  induction cs as [| c cs IH]; intros self; cbn [foldl].
  - by rewrite app_nil_r.
  - destruct (IH (handler_marker.command self c).1) as (Hc & Hs & Hr & Hd).
    rewrite Hc, Hs, Hr, Hd. cbn. by rewrite <- app_assoc.
Qed.

(** X24: commands marked with [bot.mark.command] are dispatched after the
    commands the bot already had, in the order in which they were marked:
    when every command returns its status, the list handed to the debugger
    and to the signal holds the statuses of the old commands followed by
    those of the marked ones, for any order of completion. *)
Theorem marked_commands_dispatch_in_marking_order
    {Event SharedBox HandlingStatus : Type}
    (self : bot.Bot Event SharedBox HandlingStatus)
    (cs : list (bot.Command Event SharedBox HandlingStatus))
    (event : Event) (order : list nat)
    (status : bot.Command Event SharedBox HandlingStatus -> HandlingStatus) :
  order ≡ₚ seq 0 (length (bot.commands self) + length cs) ->
  (forall c, c ∈ bot.commands self ++ cs ->
     bot.handle_event c event (bot.shared_box self) = bot.Returned (status c)) ->
  bot.pass_event_trough_commands (handler_marker.mark_all self cs) event order
  = bot.Returns
      ((if negb (bot.release self)
        then bot.show_debug_info self event
               ((status <$> bot.commands self) ++ (status <$> cs))
        else [])
       ++ [bot.signal_POST_EVENT_HANDLING event
             ((status <$> bot.commands self) ++ (status <$> cs))]).
Proof.
  intros Hperm Hret.
  destruct (mark_all_commands self cs) as (Hc & Hs & Hr & Hd).
  unfold bot.pass_event_trough_commands. rewrite Hc, Hs, Hr.
  rewrite (tasks_returned self event status _ Hret).
  rewrite gather_returned by (by rewrite length_fmap, length_app).
  unfold bot.show_debug_info. rewrite Hd. by rewrite fmap_app.
Qed.

Lemma marked_commands_dispatch_in_marking_order_witness :
  bot.pass_event_trough_commands
    (handler_marker.mark_all (bot_with [command_hi]) [command_bye; command_hi])
    tt [1; 0; 2]%nat
  = bot.Returns [bot.debugger_render tt [7; 9; 7]%nat;
                 bot.signal_POST_EVENT_HANDLING tt [7; 9; 7]%nat].
Proof.
  apply (marked_commands_dispatch_in_marking_order
           (bot_with [command_hi]) [command_bye; command_hi] tt [1; 0; 2]%nat
           (fun c => match bot.handle_event c tt tt with
                     | bot.Returned st => st
                     | bot.Raised _ => 0%nat
                     end)).
  - apply perm_swap.
  - intros c Hc. simpl in Hc. rewrite !elem_of_cons, elem_of_nil in Hc.
    destruct Hc as [-> | [-> | [-> | []]]]; reflexivity.
Defined.
